(** * run_op_ssh.py: SSH configuration generated from 1Password entries

    A shallow embedding of [src/run_op_ssh.py] and the properties of its
    entry parser ([SSHConfigEntry.__init__]), its serializer
    ([SSHConfigEntry.serialize]), the config builder ([make_config]) and the
    orchestrator ([main]).

    Modelling conventions.
    - A Python [str] is a [string]; a character is an [ascii], read as the
      code point of the same number (0..255).  The character classes of
      [re] and of [str.lower], [str.strip] are Python's Unicode classes
      restricted to that range.
    - An exception is a value of [exn]; a computation that may raise returns
      [result A = exn + A], and [inl e] propagates like an uncaught raise.
    - The instance dictionary of an [SSHConfigEntry] is a finite map from
      attribute names to values, because [__init__] fills it with
      [setattr] under names read from the input.
    - What the script does to the outside world (standard output, files,
      directories) is recorded as a list of [event]s, in program order; what
      the outside world answers (the platform, [shutil.which], the keyboard,
      the 1Password CLI) is read from an [Env] record. *)

From Stdlib Require Import Ascii String List Bool Arith Lia.
From stdpp Require Import base option list gmap strings.

Local Open Scope string_scope.
Local Open Scope list_scope.

(** ** Characters and [str] methods *)

Module Str.

(** Characters that a Rocq string literal cannot hold directly. *)
Definition nl_char : ascii := ascii_of_nat 10.
Definition nl : string := String nl_char "".
Definition tab : string := String (ascii_of_nat 9) "".
Definition dquote : string := String (ascii_of_nat 34) "".

Definition in_range (lo hi n : nat) : bool := Nat.leb lo n && Nat.leb n hi.

(** [str.isspace] on code points below 256: TAB..CR, FS..US, SPACE, NEL,
    NBSP.  It is also the class [\s] of [re]. *)
Definition is_space (c : ascii) : bool :=
  let n := nat_of_ascii c in
  in_range 9 13 n || in_range 28 32 n || Nat.eqb n 133 || Nat.eqb n 160.

(** The class [\w] of [re] on code points below 256: alphanumeric
    characters ([str.isalnum]) and the underscore. *)
Definition is_word (c : ascii) : bool :=
  let n := nat_of_ascii c in
  in_range 48 57 n || in_range 65 90 n || Nat.eqb n 95 || in_range 97 122 n
  || Nat.eqb n 170 || in_range 178 179 n || Nat.eqb n 181 || in_range 185 186 n
  || in_range 188 190 n || in_range 192 214 n || in_range 216 246 n
  || in_range 248 255 n.

(** [str.lower] on one character: A..Z and the Latin-1 capitals. *)
Definition lower_char (c : ascii) : ascii :=
  let n := nat_of_ascii c in
  if in_range 65 90 n || in_range 192 214 n || in_range 216 222 n
  then ascii_of_nat (n + 32) else c.

Fixpoint map_chars (f : ascii -> ascii) (s : string) : string :=
  match s with
  | EmptyString => EmptyString
  | String c s' => String (f c) (map_chars f s')
  end.

(** [s.lower()] *)
Definition lower (s : string) : string := map_chars lower_char s.

(** [s.replace(a, b)] for one-character [a] and [b]. *)
Definition replace (a b : ascii) (s : string) : string :=
  map_chars (fun c => if Ascii.eqb c a then b else c) s.

(** [s.lstrip()] *)
Fixpoint lstrip (s : string) : string :=
  match s with
  | EmptyString => EmptyString
  | String c s' => if is_space c then lstrip s' else s
  end.

(** [s.rstrip()] *)
Fixpoint rstrip (s : string) : string :=
  match s with
  | EmptyString => EmptyString
  | String c s' =>
      match rstrip s' with
      | EmptyString => if is_space c then EmptyString else String c EmptyString
      | r => String c r
      end
  end.

(** [s.strip()] *)
Definition strip (s : string) : string := rstrip (lstrip s).

(** [s.split(sep)] for a one-character separator: every occurrence of
    [sep] ends a piece, so the result has one piece more than there are
    separators and is never empty. *)
Fixpoint split (sep : ascii) (s : string) : list string :=
  match s with
  | EmptyString => [EmptyString]
  | String c s' =>
      if Ascii.eqb c sep then EmptyString :: split sep s'
      else match split sep s' with
           | [] => [String c EmptyString]
           | piece :: rest => String c piece :: rest
           end
  end.

(** [s.split(sep, 1)]: at most one split, at the first separator. *)
Fixpoint split1 (sep : ascii) (s : string) : list string :=
  match s with
  | EmptyString => [EmptyString]
  | String c s' =>
      if Ascii.eqb c sep then [EmptyString; s']
      else match split1 sep s' with
           | piece :: rest => String c piece :: rest
           | [] => [String c EmptyString]
           end
  end.

(** Truth value of a [str]: empty strings are false. *)
Definition truthy (s : string) : bool :=
  match s with EmptyString => false | _ => true end.

(** [c in s] for a character. *)
Fixpoint mem (c : ascii) (s : string) : bool :=
  match s with
  | EmptyString => false
  | String x s' => Ascii.eqb x c || mem c s'
  end.

(** Some character of [s] is whitespace. *)
Fixpoint has_space (s : string) : bool :=
  match s with
  | EmptyString => false
  | String x s' => is_space x || has_space s'
  end.

(** [s] ends with a whitespace character. *)
Fixpoint ends_with_space (s : string) : bool :=
  match s with
  | EmptyString => false
  | String x EmptyString => is_space x
  | String _ s' => ends_with_space s'
  end.

(** [s.startswith(p)] *)
Fixpoint startswith (p s : string) : bool :=
  match p, s with
  | EmptyString, _ => true
  | String a p', String b s' => Ascii.eqb a b && startswith p' s'
  | String _ _, EmptyString => false
  end.

(** [s.endswith(p)] for a one-character [p]. *)
Fixpoint endswith_char (c : ascii) (s : string) : bool :=
  match s with
  | EmptyString => false
  | String x EmptyString => Ascii.eqb x c
  | String _ s' => endswith_char c s'
  end.

(** [os.path.join(a, b)] of [posixpath]: an absolute [b] replaces [a];
    otherwise the two are joined by one slash unless [a] is empty or
    already ends with one. *)
Definition path_join (a b : string) : string :=
  if startswith "/" b then b
  else if negb (truthy a) || endswith_char "/" a then a +:+ b
  else a +:+ "/" +:+ b.

End Str.

(** ** The [re] module: a backtracking matcher *)

Module Re.

(** The constructs the script's patterns use.  [Star true r] is the greedy
    [r*], [Star false r] the lazy [r*?]; [Group n r] is the [n]-th capturing
    group; a non-capturing group is plain nesting. *)
Inductive regex : Type :=
| Empty                                (* the empty pattern *)
| Bol                                  (* ^ *)
| Eol                                  (* $ *)
| Lit (c : ascii)                      (* a literal character *)
| LitI (c : ascii)                     (* the same under re.IGNORECASE *)
| Dot                                  (* . *)
| Word                                 (* \w *)
| Space                                (* \s *)
| Seq (r1 r2 : regex)
| Star (greedy : bool) (r : regex)
| Group (n : nat) (r : regex).

(** [r+] *)
Definition Plus (r : regex) : regex := Seq r (Star true r).

(** A literal string, character by character. *)
Fixpoint Lits (mk : ascii -> regex) (s : string) : regex :=
  match s with
  | EmptyString => Empty
  | String c s' => Seq (mk c) (Lits mk s')
  end.

(** The text captured by each group that took part in the match. *)
Abbreviation captures := (gmap nat string).

(** The rest of the match, given the position reached, the input left and
    the groups captured so far. *)
Definition cont : Type := nat -> list ascii -> captures -> option captures.

(** [run r k i s c] matches [r] at position [i], where [s] is the input
    from [i] on, and hands what [r] leaves to [k]; alternatives are tried
    in the order of a backtracking matcher and the first success is
    returned.  A repetition tries one more iteration before (greedy) or
    after (lazy) leaving the loop; an iteration that consumes nothing is
    abandoned, so the length of the input bounds the iterations. *)
Fixpoint run (r : regex) (k : cont) (i : nat) (s : list ascii)
    (c : captures) {struct r} : option captures :=
  match r with
  | Empty => k i s c
  | Bol => if Nat.eqb i 0 then k i s c else None
  | Eol =>
      match s with
      | [] => k i s c
      | [x] => if Ascii.eqb x Str.nl_char then k i s c else None
      | _ => None
      end
  | Lit a =>
      match s with
      | x :: s' => if Ascii.eqb x a then k (S i) s' c else None
      | [] => None
      end
  | LitI a =>
      match s with
      | x :: s' =>
          if Ascii.eqb (Str.lower_char x) (Str.lower_char a)
          then k (S i) s' c else None
      | [] => None
      end
  | Dot =>
      match s with
      | x :: s' => if Ascii.eqb x Str.nl_char then None else k (S i) s' c
      | [] => None
      end
  | Word =>
      match s with
      | x :: s' => if Str.is_word x then k (S i) s' c else None
      | [] => None
      end
  | Space =>
      match s with
      | x :: s' => if Str.is_space x then k (S i) s' c else None
      | [] => None
      end
  | Seq r1 r2 => run r1 (run r2 k) i s c
  | Star greedy body =>
      (fix loop (fuel : nat) (i : nat) (s : list ascii) (c : captures)
           {struct fuel} : option captures :=
         let again (_ : unit) :=
           match fuel with
           | O => None
           | S fuel' =>
               run body
                 (fun i' s' c' =>
                    if Nat.ltb (length s') (length s) then loop fuel' i' s' c'
                    else None)
                 i s c
           end in
         if greedy then
           match again tt with Some m => Some m | None => k i s c end
         else
           match k i s c with Some m => Some m | None => again tt end)
        (length s) i s c
  | Group n body =>
      run body
        (fun i' s' c' => k i' s' (<[n := string_of_list_ascii (take (i' - i) s)]> c'))
        i s c
  end.

(** Number of capturing groups of a pattern. *)
Fixpoint ngroups (r : regex) : nat :=
  match r with
  | Seq r1 r2 => ngroups r1 + ngroups r2
  | Star _ body => ngroups body
  | Group _ body => S (ngroups body)
  | _ => 0
  end.

(** [re.match(r, s)]: a match that starts at position 0, or [None]. *)
Definition rmatch (r : regex) (s : string) : option captures :=
  run r (fun _ _ c => Some c) 0 (list_ascii_of_string s) ∅.

(** [re.search(r, s)]: the first position from which [r] matches. *)
Fixpoint search_from (r : regex) (i : nat) (s : list ascii) : option captures :=
  match run r (fun _ _ c => Some c) i s ∅ with
  | Some m => Some m
  | None =>
      match s with
      | [] => None
      | _ :: s' => search_from r (S i) s'
      end
  end.

Definition search (r : regex) (s : string) : option captures :=
  search_from r 0 (list_ascii_of_string s).

End Re.

(** ** Exceptions, values and the outside world *)

(** The exceptions the script can raise or let through. *)
Inductive exn : Type :=
| IndexError (msg : string)
| KeyError (key : string)
| AttributeError (msg : string)
| ValueError (msg : string)
| TypeError (msg : string)
| EOFError
| OSError (msg : string)
| SystemExit (status : nat).

(** A computation that returns a value or raises. *)
Definition result (A : Type) : Type := exn + A.

Definition rbind {A B : Type} (m : result A) (f : A -> result B) : result B :=
  match m with
  | inl e => inl e
  | inr x => f x
  end.

Notation "'do' x <- m ; k" := (rbind m (fun x => k))
  (at level 10, x name, m at level 100, k at level 200, only parsing).

(** The values an attribute of an entry can hold: [None] or a [str]. *)
Inductive value : Type :=
| VNone
| VStr (s : string).

(** How an f-string prints a value. *)
Definition format (v : value) : string :=
  match v with
  | VNone => "None"
  | VStr s => s
  end.

(** Truth value, as [if v:] reads it. *)
Definition truth (v : value) : bool :=
  match v with
  | VNone => false
  | VStr s => Str.truthy s
  end.

(** A JSON object whose members are strings, as [json.loads] returns it.
    Members of other types are of no concern to the script and are left
    out. *)
Abbreviation jobject := (gmap string string).

(** [l[i]] *)
Definition item {A : Type} (l : list A) (i : nat) : result A :=
  match l !! i with
  | Some x => inr x
  | None => inl (IndexError "list index out of range")
  end.

(** [d[k]] *)
Definition member (d : jobject) (k : string) : result string :=
  match d !! k with
  | Some v => inr v
  | None => inl (KeyError k)
  end.

(** What the script does to its surroundings, in program order. *)
Inductive event : Type :=
| Stdout (text : string)                    (* print(text) *)
| Stderr (text : string)                    (* print(text, file=sys.stderr) *)
| Prompt (text : string)                    (* the prompt of input(text) *)
| MakeArchive (base_name root_dir : string) (* shutil.make_archive, gztar *)
| Rmtree (path : string)                    (* shutil.rmtree *)
| Mkdir (path : string)                     (* os.mkdir *)
| Open (path : string)                      (* open(path, 'w') *)
| FileWrite (path : string) (text : string). (* write(text) on that file *)

(** The events that change the file system. *)
Definition mutates (e : event) : bool :=
  match e with
  | Stdout _ | Stderr _ | Prompt _ => false
  | MakeArchive _ _ | Rmtree _ | Mkdir _ | Open _ | FileWrite _ _ => true
  end.

(** The state a run threads through: what it has done so far and the lines
    still waiting on the keyboard. *)
Record world : Type := World {
  trace : list event;
  stdin : list string
}.

(** What the surroundings answer.  [release] is
    [platform.uname().release]; [which] is [shutil.which]; [login] is
    [os.getlogin()]; [exists_] is [os.path.exists] before the run touches
    anything; [clock] is [time.strftime("%Y%m%d-%H%M%S")]; [shell] is the
    standard output of a child process as [call_shell] returns it, or the
    exception it raises; [loads] is [json.loads] on the CLI's output, read
    as a list of objects. *)
Record Env : Type := {
  release : string;
  which : string -> option string;
  login : string;
  exists_ : string -> bool;
  clock : string;
  shell : string -> result string;
  loads : string -> result (list jobject)
}.

(** Computations with effects: a world in, a world and a result out.  An
    exception keeps the effects that preceded it. *)
Definition M (A : Type) : Type := world -> world * result A.

Definition ret {A : Type} (x : A) : M A := fun w => (w, inr x).

Definition raise {A : Type} (e : exn) : M A := fun w => (w, inl e).

Definition lift {A : Type} (r : result A) : M A := fun w => (w, r).

Definition bind {A B : Type} (m : M A) (f : A -> M B) : M B :=
  fun w =>
    match m w with
    | (w', inl e) => (w', inl e)
    | (w', inr x) => f x w'
    end.

Notation "'run' x <- m ; k" := (bind m (fun x => k))
  (at level 10, x name, m at level 100, k at level 200, only parsing).

Definition emit (e : event) : M unit :=
  fun w => ({| trace := trace w ++ [e]; stdin := stdin w |}, inr tt).

(** [input(prompt)]: shows the prompt and reads one line, without its
    newline; at the end of the input it raises [EOFError]. *)
Definition input (prompt : string) : M string :=
  fun w =>
    let shown := trace w ++ [Prompt prompt] in
    match stdin w with
    | [] => ({| trace := shown; stdin := [] |}, inl EOFError)
    | line :: rest => ({| trace := shown; stdin := rest |}, inr line)
    end.

(** A [for] loop whose body has effects. *)
Fixpoint for_each {A : Type} (body : A -> M unit) (l : list A) : M unit :=
  match l with
  | [] => ret tt
  | x :: rest => run _ <- body x; for_each body rest
  end.

(** ** [class SSHConfigEntry] *)

Module SSHConfigEntry.

(** The instance dictionary. *)
Abbreviation attrs := (gmap string value).

(** The pattern of line 71, as the source spells it. *)
Definition reference_pattern_text : string :=
  "^op:\/\/(?:\w+\s*)*?\/((?:\w+\s*)*)/.*$".

(** Its non-capturing group, one or more word characters and then any
    whitespace. *)
Definition words : Re.regex := Re.Seq (Re.Plus Re.Word) (Re.Star true Re.Space).

(** The pattern itself: the prefix, a lazy run of [words], a slash, group 1
    around a greedy run of [words], a slash, and the rest of the line. *)
Definition reference_pattern : Re.regex :=
  Re.Seq Re.Bol
    (Re.Seq (Re.Lits Re.Lit "op://")
       (Re.Seq (Re.Star false words)
          (Re.Seq (Re.Lit "/")
             (Re.Seq (Re.Group 1 (Re.Star true words))
                (Re.Seq (Re.Lit "/")
                   (Re.Seq (Re.Star true Re.Dot) Re.Eol)))))).

(** [m.group(n)] on the result of [re.match]: calling it on [None] is an
    [AttributeError]; a group number the pattern does not have is an
    [IndexError]; a group that took no part in the match is [None]. *)
Definition group (r : Re.regex) (m : option Re.captures) (n : nat) : result value :=
  match m with
  | None => inl (AttributeError "'NoneType' object has no attribute 'group'")
  | Some c =>
      if Nat.leb n (Re.ngroups r) then
        inr (match c !! n with Some s => VStr s | None => VNone end)
      else inl (IndexError "no such group")
  end.

(** Lines 70-73: the [try] block, which handles [IndexError] only. *)
Definition extract_keyname (ref : string) : result value :=
  match group reference_pattern (Re.rmatch reference_pattern ref) 1 with
  | inl (IndexError _) => inr VNone
  | other => other
  end.

(** [setattr(self, name, v)] for a [str] or [None] value.  The class
    defines no [__setattr__] and no property, so the value goes into the
    instance dictionary under any name, except the three names that
    [object] and [type] guard with a data descriptor. *)
Definition setattr (self : attrs) (name : string) (v : value) : result attrs :=
  if String.eqb name "__class__" then
    inl (TypeError "__class__ must be set to a class, not 'str' object")
  else if String.eqb name "__dict__" then
    inl (TypeError "__dict__ must be set to a dictionary, not a 'str'")
  else if String.eqb name "__weakref__" then
    inl (AttributeError "attribute '__weakref__' of 'SSHConfigEntry' objects is not writable")
  else inr (<[name := v]> self).

(** [self.name] for a data attribute: read from the instance dictionary. *)
Definition getattr (self : attrs) (name : string) : result value :=
  match self !! name with
  | Some v => inr v
  | None =>
      inl (AttributeError ("'SSHConfigEntry' object has no attribute '" +:+ name +:+ "'"))
  end.

(** Lines 84-85: one parameter line. [key, value = param.split(' ', 1)]
    needs exactly two pieces. *)
Definition set_param (self : attrs) (param : string) : result attrs :=
  match Str.split1 " " param with
  | [key; value] => setattr self key (VStr value)
  | _ => inl (ValueError "not enough values to unpack (expected 2, got 1)")
  end.

(** Lines 83-85: the loop over the parameter lines. *)
Fixpoint set_params (self : attrs) (parameters : list string) : result attrs :=
  match parameters with
  | [] => inr self
  | param :: rest =>
      do self' <- set_param self param;
      set_params self' rest
  end.

(** [v.replace(' ', '_')] on an attribute value. *)
Definition replace_spaces (v : value) : result string :=
  match v with
  | VStr s => inr (Str.replace " " "_" s)
  | VNone => inl (AttributeError "'NoneType' object has no attribute 'replace'")
  end.

Definition missing_url (keyname : value) : exn :=
  ValueError ("Key does not specify a URL to connect to! Add a URL field to the 1Password entry for "
              +:+ format keyname).

(** The attributes assigned before the parameters are read: lines 63,
    71-73 and 76-79. *)
Definition initial (key : string) (keyname : value) : attrs :=
  let self : attrs := {[ "key" := VStr key ]} in
  let self := <["keyname" := keyname]> self in
  let self := <["options" := VNone]> self in
  let self := <["user" := VNone]> self in
  let self := <["aliases" := VNone]> self in
  <["url" := VNone]> self.

(** Lines 87-96: the check for a URL, the fallback of the key name and its
    normalization. *)
Definition finish (self : attrs) : result attrs :=
  do url <- getattr self "url";
  match url with
  | VNone =>
      do keyname <- getattr self "keyname";
      inl (missing_url keyname)
  | VStr _ =>
      do keyname <- getattr self "keyname";
      let self :=
        match keyname with
        | VNone => <["keyname" := url]> self
        | VStr _ => self
        end in
      do keyname <- getattr self "keyname";
      do keyname' <- replace_spaces keyname;
      inr (<["keyname" := VStr keyname']> self)
  end.

(** [json[1]['value']], the parameter blob. *)
Definition blob_of (json : list jobject) : result string :=
  do j1 <- item json 1;
  member j1 "value".

(** [SSHConfigEntry.__init__(self, json)], lines 52-96.  The result is the
    instance dictionary of the new entry. *)
Definition __init__ (json : list jobject) : result attrs :=
  do j0 <- item json 0;
  do key <- member j0 "value";
  do j0 <- item json 0;
  do ref <- member j0 "reference";
  do keyname <- extract_keyname ref;
  let self := initial key keyname in
  do blob <- blob_of json;
  let parameters := Str.split Str.nl_char blob in
  do self <- set_params self parameters;
  finish self.

(** [v + suffix], string concatenation on an attribute value. *)
Definition plus_str (v : value) (suffix : string) : result string :=
  match v with
  | VStr s => inr (s +:+ suffix)
  | VNone => inl (TypeError "unsupported operand type(s) for +: 'NoneType' and 'str'")
  end.

(** [fout.write(v)] wants a [str]. *)
Definition text_of (v : value) : result string :=
  match v with
  | VStr s => inr s
  | VNone => inl (TypeError "write() argument must be str, not None")
  end.

(** [self.name(...)] for a method of the class.  Functions are not data
    descriptors, so an instance attribute of that name, which is a [str]
    here, is found first and is not callable. *)
Definition call_method {A : Type} (self : attrs) (name : string) (body : M A) : M A :=
  match self !! name with
  | Some (VStr _) => raise (TypeError "'str' object is not callable")
  | Some VNone => raise (TypeError "'NoneType' object is not callable")
  | None => body
  end.

(** [SSHConfigEntry._make_key(self, path)], lines 98-105. *)
Definition _make_key (self : attrs) (path : string) : M unit :=
  run keyname <- lift (getattr self "keyname");
  run name <- lift (plus_str keyname ".pub");
  let file := Str.path_join path name in
  run _ <- emit (Open file);
  run key <- lift (getattr self "key");
  run text <- lift (text_of key);
  emit (FileWrite file text).

(** Lines 132-134: one indented line per option, appended to [res]. *)
Definition option_lines (res options : string) : string :=
  fold_left (fun res opt => res +:+ Str.tab +:+ opt +:+ Str.nl)
    (Str.split "," options) res.

(** Lines 122-136 of [serialize]: the stanza, which only reads the entry. *)
Definition stanza (self : attrs) : result string :=
  do url <- getattr self "url";
  do aliases <- getattr self "aliases";
  let names :=
    match aliases with
    | VStr a => if Str.truthy a then Str.replace "," " " a else ""
    | VNone => ""
    end in
  let res := "Host " +:+ format url +:+ " " +:+ names +:+ Str.nl in
  do url <- getattr self "url";
  let res := res +:+ Str.tab +:+ "HostName " +:+ format url +:+ Str.nl in
  do keyname <- getattr self "keyname";
  do name <- plus_str keyname ".pub";
  let res := res +:+ Str.tab +:+ "IdentityFile " +:+ Str.dquote
             +:+ Str.path_join (Str.path_join "%d" ".ssh") name
             +:+ Str.dquote +:+ Str.nl in
  let res := res +:+ Str.tab +:+ "IdentitiesOnly yes" +:+ Str.nl in
  do user <- getattr self "user";
  let res :=
    if truth user then res +:+ Str.tab +:+ "User " +:+ format user +:+ Str.nl
    else res in
  do options <- getattr self "options";
  let res :=
    match options with
    | VStr o => if Str.truthy o then option_lines res o else res
    | VNone => res
    end in
  inr res.

(** [SSHConfigEntry.serialize(self, path)], lines 107-136. *)
Definition serialize (self : attrs) (path : string) : M string :=
  run keyname <- lift (getattr self "keyname");
  run _ <- emit (Stdout ("Generating key and config entry for " +:+ format keyname));
  run _ <- call_method self "_make_key" (_make_key self path);
  lift (stanza self).

(** [entry.serialize(path)] as a caller writes it. *)
Definition call_serialize (self : attrs) (path : string) : M string :=
  call_method self "serialize" (serialize self path).

End SSHConfigEntry.

(** ** Module-level functions *)

(** The module constant of line 11. *)
Definition OP_EXE : option string := None.

(** [re.search(word, s, re.IGNORECASE) != None] for a literal word. *)
Definition mentions (word s : string) : bool :=
  match Re.search (Re.Lits Re.LitI word) s with
  | Some _ => true
  | None => false
  end.

(** [is_wsl()], lines 13-17. *)
Definition is_wsl (env : Env) : bool := mentions "microsoft" (release env).

(** [get_op_exe()], lines 19-31. *)
Definition get_op_exe (env : Env) : option string :=
  match OP_EXE with
  | Some exe => if Str.truthy exe then Some exe
                else if is_wsl env then which env "op.exe" else which env "op"
  | None => if is_wsl env then which env "op.exe" else which env "op"
  end.

(** [call_shell(cmd)], lines 33-47: the child's standard output. *)
Definition call_shell (env : Env) (cmd : string) : M string := lift (shell env cmd).

(** Lines 146-148: the user name asked on the keyboard. *)
Definition ask_windows_user : M string :=
  run _ <- emit (Stdout "Hi! You appear to be using WSL, so we need some extra info.");
  run win_user <- input "What is your Windows username? ";
  run _ <- emit (Stdout "Thanks, back to work!");
  ret win_user.

(** [get_ssh_path()], lines 138-152. *)
Definition get_ssh_path (env : Env) : M string :=
  if is_wsl env then
    run win_user <-
      match which env "powershell.exe" with
      | Some ps =>
          if Str.truthy ps then
            run out <- call_shell env (ps +:+ " '$env:UserName'");
            ret (Str.strip out)
          else ask_windows_user
      | None => ask_windows_user
      end;
    ret ("/mnt/c/users/" +:+ win_user +:+ "/.ssh")
  else ret ("/home/" +:+ login env +:+ "/.ssh").

(** The two header lines of the generated file, lines 171-172. *)
Definition header1 : string :=
  "# This file was automatically generated by a Chezmoi script. Changes will be overwritten if `chezmoi apply` or `chezmoi update` is ran."
  +:+ Str.nl.

Definition header2 : string :=
  "# You can find the script somewhere in the directory opened with `chezmoi cd`."
  +:+ Str.nl +:+ Str.nl.

(** The global stanza of line 176. *)
Definition agent_stanza : string :=
  "Host *" +:+ Str.nl +:+ Str.tab +:+ "IdentityAgent ~/.1password/agent.sock" +:+ Str.nl.

(** Lines 177-179: the body of the loop over the entries. *)
Definition write_entry (config path : string) (entry : SSHConfigEntry.attrs) : M unit :=
  run _ <- emit (FileWrite config Str.nl);
  run text <- SSHConfigEntry.call_serialize entry path;
  emit (FileWrite config text).

(** Lines 170-179: the [with] block that writes the configuration file. *)
Definition write_config (env : Env) (entries : list SSHConfigEntry.attrs)
    (path : string) : M unit :=
  let config := Str.path_join path "config" in
  run _ <- emit (Open config);
  run _ <- emit (FileWrite config header1);
  run _ <- emit (FileWrite config header2);
  run _ <- (if negb (is_wsl env) then emit (FileWrite config agent_stanza) else ret tt);
  for_each (write_entry config path) entries.

(** [make_config(entries, path)], lines 154-179.  [shutil.make_archive]
    returns the name of the archive it wrote, the base name with the
    suffix of the format. *)
Definition make_config (env : Env) (entries : list SSHConfigEntry.attrs)
    (path : string) : M unit :=
  run _ <-
    (if exists_ env path then
       let base_name := path +:+ "-" +:+ clock env +:+ ".old" in
       run _ <- emit (MakeArchive base_name path);
       let new_loc := base_name +:+ ".tar.gz" in
       run _ <- emit (Stdout ("Moving old version of .ssh directory to a backup location at "
                               +:+ Str.dquote +:+ new_loc +:+ Str.dquote));
       emit (Rmtree path)
     else ret tt);
  run _ <- emit (Mkdir path);
  write_config env entries path.

(** The question of line 196. *)
Definition question : string :=
  "This will replace your existing directory, but a backup will be made. Continue? (Y/n) ".

(** What the [match] of lines 196-200 does with one line of input. *)
Inductive answer : Type := Yes | No | Again.

(** [line.lower().strip()] against the cases ['y' | ''] and ['n']. *)
Definition classify (line : string) : answer :=
  let a := Str.strip (Str.lower line) in
  if String.eqb a "y" || String.eqb a "" then Yes
  else if String.eqb a "n" then No
  else Again.

(** Lines 195-200: the [while True] loop, by recursion on the lines still
    waiting on the keyboard.  Each turn shows the question and reads one
    line, as [input] does; when no line is left, [input] raises. *)
Fixpoint confirm_loop (shown : list event) (pending : list string) : world * result unit :=
  let shown := shown ++ [Prompt question] in
  match pending with
  | [] => ({| trace := shown; stdin := [] |}, inl EOFError)
  | line :: rest =>
      match classify line with
      | Yes => ({| trace := shown; stdin := rest |}, inr tt)
      | No => ({| trace := shown; stdin := rest |}, inl (SystemExit 0))
      | Again => confirm_loop shown rest
      end
  end.

Definition confirm : M unit := fun w => confirm_loop (trace w) (stdin w).

(** Lines 204-211: the ids of the entries, signing keys left out. *)
Fixpoint select_keys (items : list jobject) (key_ids : list string) : M (list string) :=
  match items with
  | [] => ret key_ids
  | key :: rest =>
      run title <- lift (member key "title");
      if mentions "signing" title then
        run title <- lift (member key "title");
        run _ <- emit (Stdout ("Omitting " +:+ title +:+ " - this key appears to be for signing!"));
        select_keys rest key_ids
      else
        run id <- lift (member key "id");
        select_keys rest (key_ids ++ [id])
  end.

(** Lines 214-218: one entry per id. *)
Fixpoint fetch_entries (env : Env) (exe : string) (key_ids : list string)
    (entries : list SSHConfigEntry.attrs) : M (list SSHConfigEntry.attrs) :=
  match key_ids with
  | [] => ret entries
  | key :: rest =>
      run res <- call_shell env
        (exe +:+ " item get --format json --fields label="
             +:+ Str.dquote +:+ "public key" +:+ Str.dquote +:+ ",label="
             +:+ Str.dquote +:+ "chezmoi params" +:+ Str.dquote +:+ " " +:+ key);
      run json <- lift (loads env res);
      run entry <- lift (SSHConfigEntry.__init__ json);
      fetch_entries env exe rest (entries ++ [entry])
  end.

(** Lines 202-220: everything after the confirmation. *)
Definition generate (env : Env) (exe path : string) : M unit :=
  run get_entries_res <- call_shell env (exe +:+ " item list --categories SSHKEY --format json");
  run items <- lift (loads env get_entries_res);
  run key_ids <- select_keys items [];
  run entries <- fetch_entries env exe key_ids [];
  make_config env entries path.

(** [main()], lines 181-220. *)
Definition main (env : Env) : M unit :=
  match get_op_exe env with
  | None =>
      run _ <- emit (Stderr "1Password CLI not installed! Quitting.");
      run _ <- (if is_wsl env
                then emit (Stderr "Hint: If you're trying to use WSL, you need the Windows CLI installed, not Linux!")
                else ret tt);
      raise (SystemExit 1)
  | Some exe =>
      run _ <- emit (Stdout "Generating a new SSH directory...");
      run path <- get_ssh_path env;
      run _ <- (if exists_ env path then confirm else ret tt);
      generate env exe path
  end.

(** ** Notions the properties are stated with *)

(** The two-element list [main] hands to the constructor: the public key
    with its reference, and the parameter blob. *)
Definition fetched (key ref blob : string) : list jobject :=
  [ {[ "value" := key; "reference" := ref ]}; {[ "value" := blob ]} ].

(** [sep.join(pieces)] *)
Fixpoint join (sep : string) (pieces : list string) : string :=
  match pieces with
  | [] => ""
  | [piece] => piece
  | piece :: rest => piece +:+ sep +:+ join sep rest
  end.

(** The value of the last line of [lines] that sets [name]. *)
Fixpoint last_value (name : string) (lines : list string) : option string :=
  match lines with
  | [] => None
  | line :: rest =>
      match last_value name rest with
      | Some v => Some v
      | None =>
          match Str.split1 " " line with
          | [key; value] => if String.eqb key name then Some value else None
          | _ => None
          end
      end
  end.

(** The attribute names that decide what an entry does: the four
    parameters, the two the constructor sets besides, the two methods, and
    the three names [setattr] refuses. *)
Definition significant : list string :=
  [ "options"; "user"; "aliases"; "url"; "key"; "keyname";
    "serialize"; "_make_key"; "__class__"; "__dict__"; "__weakref__" ].

Definition is_significant (name : string) : bool :=
  existsb (String.eqb name) significant.

(** A parameter line that has a field name and whose name is not
    significant. *)
Definition ignorable (line : string) : bool :=
  match Str.split1 " " line with
  | [key; _] => negb (is_significant key)
  | _ => false
  end.

(** The lines that stay when the ignorable ones are removed. *)
Definition kept (line : string) : bool := negb (ignorable line).

(** The blob with its ignorable lines removed. *)
Definition without_ignorable (blob : string) : string :=
  join Str.nl (List.filter kept (Str.split Str.nl_char blob)).

(** The text written to [file] since it was last opened for writing. *)
Definition written_step (file : string) (text : string) (e : event) : string :=
  match e with
  | Open f => if String.eqb f file then "" else text
  | FileWrite f t => if String.eqb f file then text +:+ t else text
  | _ => text
  end.

Definition written (file : string) (events : list event) : string :=
  fold_left (written_step file) events "".

(** A computation that does not read the keyboard and whose events and
    result do not depend on the world it starts from. *)
Definition uniform {A : Type} (m : M A) : Prop :=
  exists (events : list event) (r : result A),
    forall w, m w = ({| trace := trace w ++ events; stdin := stdin w |}, r).

(** The lemmas that show a computation uniform, and the proof step that
    takes a sequence of computations apart with the lemma for [bind]. *)
Create HintDb uniform.

Ltac uniform_steps_with bind_lemma :=
  repeat first
    [ apply bind_lemma; [|intros ?]
    | progress auto with uniform ].

(** All characters of [s] are whitespace. *)
Fixpoint blank (s : string) : bool :=
  match s with
  | EmptyString => true
  | String c s' => Str.is_space c && blank s'
  end.

(** Two entries that hold the same value under every significant name. *)
Definition agree (a b : SSHConfigEntry.attrs) : Prop :=
  forall name, is_significant name = true -> a !! name = b !! name.

(** A run that has done nothing yet and has nothing to read. *)
Definition fresh : world := {| trace := []; stdin := [] |}.

(** The entry stanzas as the loop of lines 177-179 writes them: a newline
    before each. *)
Fixpoint stanzas_text (stanzas : list string) : string :=
  match stanzas with
  | [] => ""
  | text :: rest => Str.nl +:+ text +:+ stanzas_text rest
  end.

(** A pattern without anchors and capturing groups. *)
Fixpoint plain (r : Re.regex) : bool :=
  match r with
  | Re.Bol | Re.Eol | Re.Group _ _ => false
  | Re.Seq r1 r2 => plain r1 && plain r2
  | Re.Star _ body => plain body
  | _ => true
  end.

(** The texts a plain pattern matches, whatever the order in which a
    matcher looks for them. *)
Inductive denotes : Re.regex -> list ascii -> Prop :=
| denotes_empty : denotes Re.Empty []
| denotes_lit a : denotes (Re.Lit a) [a]
| denotes_liti a x :
    Str.lower_char x = Str.lower_char a -> denotes (Re.LitI a) [x]
| denotes_dot x : x <> Str.nl_char -> denotes Re.Dot [x]
| denotes_word x : Str.is_word x = true -> denotes Re.Word [x]
| denotes_space x : Str.is_space x = true -> denotes Re.Space [x]
| denotes_seq r1 r2 p1 p2 :
    denotes r1 p1 -> denotes r2 p2 -> denotes (Re.Seq r1 r2) (p1 ++ p2)
| denotes_star_done greedy body : denotes (Re.Star greedy body) []
| denotes_star_more greedy body p1 p2 :
    denotes body p1 -> denotes (Re.Star greedy body) p2 ->
    denotes (Re.Star greedy body) (p1 ++ p2).

(** The characters that can occur in a text a plain pattern matches. *)
Fixpoint allows (r : Re.regex) (x : ascii) : bool :=
  match r with
  | Re.Lit a => Ascii.eqb x a
  | Re.LitI a => Ascii.eqb (Str.lower_char x) (Str.lower_char a)
  | Re.Dot => negb (Ascii.eqb x Str.nl_char)
  | Re.Word => Str.is_word x
  | Re.Space => Str.is_space x
  | Re.Seq r1 r2 => allows r1 x || allows r2 x
  | Re.Star _ body => allows body x
  | _ => false
  end.

(** All characters of [s] are word characters or whitespace. *)
Fixpoint wordy (s : string) : bool :=
  match s with
  | EmptyString => true
  | String c s' => (Str.is_word c || Str.is_space c) && wordy s'
  end.

(** The title of a listed item mentions signing; an item without a title
    does not get that far. *)
Definition is_signing (key : jobject) : bool :=
  match key !! "title" with
  | Some title => mentions "signing" title
  | None => false
  end.

(** ** Sample inputs *)

(** The entry of the specification's example: reference
    [op://Vault/Example Host/item], three parameter lines. *)
Definition example_key : string := "ssh-ed25519 AAAA".

Definition example_reference : string := "op://Vault/Example Host/item".

Definition example_blob : string :=
  "url example.com" +:+ Str.nl +:+ "user admin" +:+ Str.nl +:+ "aliases ex,example".

Definition example_json : list jobject :=
  fetched example_key example_reference example_blob.

(** The entry the constructor builds from it. *)
Definition example_entry : SSHConfigEntry.attrs :=
  {[ "key" := VStr example_key;
     "keyname" := VStr "Example_Host";
     "options" := VNone;
     "user" := VStr "admin";
     "aliases" := VStr "ex,example";
     "url" := VStr "example.com" ]}.

(** A reference the pattern does not match: the item's title has a dot,
    which is neither a word character nor whitespace. *)
Definition dotted_reference : string := "op://Private/github.com/public key".

(** A blob with a line that sets no significant name, and one with a line
    that sets [keyname]. *)
Definition noisy_blob : string := "url example.com" +:+ Str.nl +:+ "color blue".

Definition renaming_blob : string := "url example.com" +:+ Str.nl +:+ "keyname other".

(** A Linux machine with the CLI installed and an [.ssh] directory in
    place; the CLI lists no entries. *)
Definition linux_env : Env :=
  {| release := "6.1.0-13-amd64";
     which := fun name => if String.eqb name "op" then Some "/usr/bin/op" else None;
     login := "user";
     exists_ := fun _ => true;
     clock := "20260101-120000";
     shell := fun _ => inr "[]";
     loads := fun _ => inr [] |}.

(** The same machine seen from WSL. *)
Definition wsl_env : Env :=
  {| release := "5.15.90.1-microsoft-standard-WSL2";
     which := fun name => if String.eqb name "op.exe" then Some "/mnt/c/op.exe" else None;
     login := "user";
     exists_ := fun _ => true;
     clock := "20260101-120000";
     shell := fun _ => inr "[]";
     loads := fun _ => inr [] |}.

(** A run in which the user types something else before declining. *)
Definition hesitant : world := {| trace := []; stdin := ["maybe"; " N "; "y"] |}.

Definition hesitant_greeted : world :=
  {| trace := [Stdout "Generating a new SSH directory..."];
     stdin := ["maybe"; " N "; "y"] |}.

Definition hesitant_asked : world :=
  {| trace := [Stdout "Generating a new SSH directory...";
               Prompt question; Prompt question];
     stdin := ["y"] |}.

(** The first run on that machine, before the directory exists. *)
Definition first_run_env : Env :=
  {| release := "6.1.0-13-amd64";
     which := fun name => if String.eqb name "op" then Some "/usr/bin/op" else None;
     login := "user";
     exists_ := fun _ => false;
     clock := "20251231-235959";
     shell := fun _ => inr "[]";
     loads := fun _ => inr [] |}.

(** An entry with a host and nothing else, and its stanza. *)
Definition bare_entry : SSHConfigEntry.attrs :=
  {[ "key" := VStr example_key;
     "keyname" := VStr "Example_Host";
     "options" := VNone;
     "user" := VNone;
     "aliases" := VNone;
     "url" := VStr "example.com" ]}.

Definition bare_stanza : string :=
  "Host example.com " +:+ Str.nl
  +:+ Str.tab +:+ "HostName example.com" +:+ Str.nl
  +:+ Str.tab +:+ "IdentityFile " +:+ Str.dquote +:+ "%d/.ssh/Example_Host.pub"
  +:+ Str.dquote +:+ Str.nl
  +:+ Str.tab +:+ "IdentitiesOnly yes" +:+ Str.nl.

(** The stanza of the specification's example. *)
Definition example_stanza : string :=
  "Host example.com ex example" +:+ Str.nl
  +:+ Str.tab +:+ "HostName example.com" +:+ Str.nl
  +:+ Str.tab +:+ "IdentityFile " +:+ Str.dquote +:+ "%d/.ssh/Example_Host.pub"
  +:+ Str.dquote +:+ Str.nl
  +:+ Str.tab +:+ "IdentitiesOnly yes" +:+ Str.nl
  +:+ Str.tab +:+ "User admin" +:+ Str.nl.

(** ** Further notions *)

(** The three names [setattr] refuses on an instance. *)
Definition guarded (name : string) : bool :=
  String.eqb name "__class__" || String.eqb name "__dict__"
  || String.eqb name "__weakref__".

(** A parameter line the loop of lines 83-85 gets past: it has a space,
    and the text before the first one is a name [setattr] takes. *)
Definition settable (line : string) : bool :=
  match Str.split1 " " line with
  | [key; _] => negb (guarded key)
  | _ => false
  end.


(** A computation all of whose events pass the test [ok], whatever the
    world it starts from and whatever its result. *)
Definition emits_only {A : Type} (ok : event -> bool) (m : M A) : Prop :=
  forall w,
    exists events,
      trace (fst (m w)) = trace w ++ events
      /\ Forall (fun e => ok e = true) events.


(** The command of line 216 for one id. *)
Definition item_get (exe key : string) : string :=
  exe +:+ " item get --format json --fields label="
      +:+ Str.dquote +:+ "public key" +:+ Str.dquote +:+ ",label="
      +:+ Str.dquote +:+ "chezmoi params" +:+ Str.dquote +:+ " " +:+ key.

(** Lines 216-217 for one id: the answer of the CLI, parsed and made an
    entry. *)
Definition fetched_entry (env : Env) (exe key : string)
    : result SSHConfigEntry.attrs :=
  do res <- shell env (item_get exe key);
  do json <- loads env res;
  SSHConfigEntry.__init__ json.

(** An event that leaves the file system as it is. *)
Definition harmless (e : event) : bool := negb (mutates e).

(** ** Facts about the [str] methods *)

Lemma split_nonempty sep s : Str.split sep s <> [].
Proof. destruct s as [|c s]; simpl; [easy|]. destruct (Ascii.eqb c sep); [easy|]. destruct (Str.split sep s); easy. Qed.

Lemma split_pieces_free sep s :
  Forall (fun piece => Str.mem sep piece = false) (Str.split sep s).
Proof.
  induction s as [|c s IH]; simpl.
  - repeat constructor.
  - destruct (Ascii.eqb c sep) eqn:E.
    + constructor; [reflexivity | exact IH].
    + destruct (Str.split sep s) as [|piece rest]; inversion IH; subst.
      * repeat constructor. simpl. now rewrite E.
      * constructor; [|assumption]. simpl. rewrite E. assumption.
Qed.

Lemma split_cons_free sep a b :
  Str.mem sep a = false ->
  Str.split sep (a +:+ String sep b) = a :: Str.split sep b.
Proof.
  induction a as [|c a IH]; simpl; intros H.
  - now rewrite Ascii.eqb_refl.
  - apply orb_false_iff in H as [Hc Ha]. rewrite Hc, (IH Ha). reflexivity.
Qed.

Lemma split_free sep a : Str.mem sep a = false -> Str.split sep a = [a].
Proof.
  induction a as [|c a IH]; simpl; intros H; [reflexivity|].
  apply orb_false_iff in H as [Hc Ha]. now rewrite Hc, (IH Ha).
Qed.

Lemma split_join (pieces : list string) :
  pieces <> [] ->
  Forall (fun piece => Str.mem Str.nl_char piece = false) pieces ->
  Str.split Str.nl_char (join Str.nl pieces) = pieces.
Proof.
  induction pieces as [|piece rest IH]; [easy|].
  intros _ Hall. inversion Hall as [|? ? Hp Hrest]; subst.
  destruct rest as [|next rest].
  - simpl. now apply split_free.
  - change (join Str.nl (piece :: next :: rest))
      with (piece +:+ String Str.nl_char (join Str.nl (next :: rest))).
    rewrite split_cons_free by assumption.
    f_equal. apply IH; [easy | assumption].
Qed.

Lemma split1_shape sep s :
  Str.split1 sep s = [s] /\ Str.mem sep s = false \/
  exists k v, Str.split1 sep s = [k; v] /\ s = k +:+ String sep v
              /\ Str.mem sep k = false.
Proof.
  induction s as [|c s IH]; simpl.
  - now left.
  - destruct (Ascii.eqb c sep) eqn:Hc.
    + apply Ascii.eqb_eq in Hc as ->. right. exists "", s. auto.
    + destruct IH as [[-> Hm]|(k & v & -> & -> & Hk)].
      * left. auto.
      * right. exists (String c k), v. simpl. rewrite Hc, Hk. auto.
Qed.

Lemma split1_pair sep s k v :
  Str.split1 sep s = [k; v] -> s = k +:+ String sep v /\ Str.mem sep k = false.
Proof.
  intros H. destruct (split1_shape sep s) as [[E _]|(k' & v' & E & Hs & Hk)];
    rewrite E in H; [discriminate|].
  injection H as <- <-. auto.
Qed.

Lemma mem_append c a b : Str.mem c (a +:+ b) = Str.mem c a || Str.mem c b.
Proof. induction a as [|x a IH]; simpl; [reflexivity|]. now rewrite IH, orb_assoc. Qed.

Lemma replace_removes a b s : a <> b -> Str.mem a (Str.replace a b s) = false.
Proof.
  intros Hab. unfold Str.replace. induction s as [|c s IH]; simpl; [reflexivity|].
  rewrite IH, orb_false_r.
  destruct (Ascii.eqb_spec c a) as [->|Hc]; apply Ascii.eqb_neq; congruence.
Qed.

Lemma append_cons (x : ascii) (a b : string) :
  String x a +:+ b = String x (a +:+ b).
Proof. reflexivity. Qed.

Lemma append_assoc (a b c : string) : (a +:+ b) +:+ c = a +:+ (b +:+ c).
Proof.
  induction a as [|x a IH]; [reflexivity|].
  now rewrite !append_cons, IH.
Qed.

Lemma append_empty_r (a : string) : a +:+ "" = a.
Proof.
  induction a as [|x a IH]; [reflexivity|].
  now rewrite append_cons, IH.
Qed.

(** ** The constructor, step by step *)

Lemma setattr_inr self name v self' :
  SSHConfigEntry.setattr self name v = inr self' -> self' = <[name := v]> self.
Proof.
  unfold SSHConfigEntry.setattr.
  repeat match goal with |- context [String.eqb ?a ?b] => destruct (String.eqb a b) end;
    congruence.
Qed.

Lemma set_param_inr self line self' :
  SSHConfigEntry.set_param self line = inr self' ->
  exists k v, Str.split1 " " line = [k; v] /\ self' = <[k := VStr v]> self.
Proof.
  unfold SSHConfigEntry.set_param.
  destruct (Str.split1 " " line) as [|k [|v [|]]]; try discriminate.
  intros H%setattr_inr. eauto.
Qed.

Lemma set_params_lookup lines : forall self self',
  SSHConfigEntry.set_params self lines = inr self' ->
  forall name,
    self' !! name =
    match last_value name lines with
    | Some v => Some (VStr v)
    | None => self !! name
    end.
Proof.
  induction lines as [|line rest IH]; simpl; intros self self' H name.
  - now injection H as <-.
  - destruct (SSHConfigEntry.set_param self line) as [e|mid] eqn:E; [discriminate|].
    simpl in H. apply set_param_inr in E as (k & v & Hs & ->).
    rewrite (IH _ _ H name), Hs.
    destruct (last_value name rest); [reflexivity|].
    destruct (String.eqb_spec k name) as [->|Hne].
    + now rewrite lookup_insert_eq.
    + now rewrite lookup_insert_ne.
Qed.

Lemma finish_inr mid self :
  SSHConfigEntry.finish mid = inr self ->
  exists url kn,
    mid !! "url" = Some (VStr url)
    /\ (mid !! "keyname" = Some (VStr kn)
        \/ mid !! "keyname" = Some VNone /\ kn = url)
    /\ self !! "keyname" = Some (VStr (Str.replace " " "_" kn))
    /\ forall name, name <> "keyname" -> self !! name = mid !! name.
Proof.
  unfold SSHConfigEntry.finish, SSHConfigEntry.getattr.
  destruct (mid !! "url") as [[|url]|] eqn:Hu; simpl; try discriminate.
  - destruct (mid !! "keyname"); discriminate.
  - destruct (mid !! "keyname") as [[|kn]|] eqn:Hk; simpl; try discriminate.
    + rewrite lookup_insert_eq. simpl. intros [= <-].
      exists url, url. repeat split; auto.
      * now rewrite lookup_insert_eq.
      * intros name Hn. now rewrite !lookup_insert_ne by congruence.
    + rewrite Hk. simpl. intros [= <-].
      exists url, kn. repeat split; auto.
      * now rewrite lookup_insert_eq.
      * intros name Hn. now rewrite lookup_insert_ne by congruence.
Qed.

Lemma init_inr json self :
  SSHConfigEntry.__init__ json = inr self ->
  exists j0 key ref kn blob mid,
    json !! 0 = Some j0 /\ j0 !! "value" = Some key
    /\ j0 !! "reference" = Some ref
    /\ SSHConfigEntry.extract_keyname ref = inr kn
    /\ SSHConfigEntry.blob_of json = inr blob
    /\ SSHConfigEntry.set_params (SSHConfigEntry.initial key kn)
         (Str.split Str.nl_char blob) = inr mid
    /\ SSHConfigEntry.finish mid = inr self.
Proof.
  unfold SSHConfigEntry.__init__, item, member.
  destruct (json !! 0) as [j0|] eqn:H0; simpl; [|discriminate].
  destruct (j0 !! "value") as [key|] eqn:Hv; simpl; [|discriminate].
  destruct (j0 !! "reference") as [ref|] eqn:Hr; simpl; [|discriminate].
  destruct (SSHConfigEntry.extract_keyname ref) as [|kn] eqn:Hk; simpl; [discriminate|].
  destruct (SSHConfigEntry.blob_of json) as [|blob] eqn:Hb; simpl; [discriminate|].
  destruct (SSHConfigEntry.set_params _ _) as [|mid] eqn:Hm; simpl; [discriminate|].
  intros Hf. exists j0, key, ref, kn, blob, mid. auto 10.
Qed.

Lemma initial_lookup key kn name :
  SSHConfigEntry.initial key kn !! name =
  if String.eqb name "url" then Some VNone
  else if String.eqb name "aliases" then Some VNone
  else if String.eqb name "user" then Some VNone
  else if String.eqb name "options" then Some VNone
  else if String.eqb name "keyname" then Some kn
  else if String.eqb name "key" then Some (VStr key)
  else None.
Proof.
  unfold SSHConfigEntry.initial.
  repeat match goal with
         | |- context [String.eqb name ?s] =>
             destruct (String.eqb_spec name s) as [->|?];
             [now rewrite ?lookup_insert_eq, ?lookup_singleton_eq
             |rewrite ?lookup_insert_ne by congruence]
         end.
  now rewrite lookup_singleton_ne by congruence.
Qed.

Lemma last_value_some name lines v :
  last_value name lines = Some v ->
  exists pre line post,
    lines = pre ++ line :: post
    /\ Str.split1 " " line = [name; v]
    /\ last_value name post = None.
Proof.
  induction lines as [|line rest IH]; simpl; [discriminate|].
  destruct (last_value name rest) as [v'|] eqn:E.
  - intros [= ->]. destruct (IH eq_refl) as (pre & l & post & -> & Hl & Hp).
    exists (line :: pre), l, post. auto.
  - destruct (Str.split1 " " line) as [|k [|x [|]]] eqn:Hs; try discriminate.
    destruct (String.eqb_spec k name) as [->|]; [|discriminate].
    intros [= ->]. exists [], line, rest. auto.
Qed.

(** ** The entry parser *)

(** The constructor on the sample input. *)
Lemma example_constructed : SSHConfigEntry.__init__ example_json = inr example_entry.
Proof. vm_compute. reflexivity. Qed.

(** C1: a reference the pattern does not match makes [re.match] return
    [None]; [.group(1)] on it raises [AttributeError], which the handler
    for [IndexError] lets through, so no entry is built and the fallback to
    the host is never reached. *)
Example unmatched_reference_raises :
  SSHConfigEntry.__init__ (fetched example_key dotted_reference "url example.com")
  = inl (AttributeError "'NoneType' object has no attribute 'group'").
Proof. vm_compute. reflexivity. Qed.

(** The same for every input: without a match the constructor raises, with
    or without a [url] line. *)
Lemma unmatched_reference_always_raises json j0 key ref :
  json !! 0 = Some j0 -> j0 !! "value" = Some key ->
  j0 !! "reference" = Some ref ->
  Re.rmatch SSHConfigEntry.reference_pattern ref = None ->
  SSHConfigEntry.__init__ json
  = inl (AttributeError "'NoneType' object has no attribute 'group'").
Proof.
  intros H0 Hv Hr Hm. unfold SSHConfigEntry.__init__, item, member.
  rewrite H0. simpl. rewrite Hv. simpl. rewrite Hr. simpl.
  unfold SSHConfigEntry.extract_keyname, SSHConfigEntry.group. now rewrite Hm.
Qed.

(** C2 (as amended): on every input on which construction succeeds, the
    host is a string and the key name is a string without a space
    character.  Neither is promised to be non-empty, and whitespace other
    than the space is not replaced. *)
Theorem constructed_host_and_keyname json self :
  SSHConfigEntry.__init__ json = inr self ->
  exists host keyname,
    self !! "url" = Some (VStr host)
    /\ self !! "keyname" = Some (VStr keyname)
    /\ Str.mem " " keyname = false.
Proof.
  intros (j0 & key & ref & kn & blob & mid & _ & _ & _ & _ & _ & _ & Hf)%init_inr.
  apply finish_inr in Hf as (url & kn' & Hu & _ & Hk & Hrest).
  exists url, (Str.replace " " "_" kn'). split; [|split].
  - rewrite Hrest by discriminate. exact Hu.
  - exact Hk.
  - now apply replace_removes.
Qed.

Lemma constructed_host_and_keyname_witness :
  SSHConfigEntry.__init__ example_json = inr example_entry
  /\ exists host keyname,
       example_entry !! "url" = Some (VStr host)
       /\ example_entry !! "keyname" = Some (VStr keyname)
       /\ Str.mem " " keyname = false.
Proof.
  assert (H : SSHConfigEntry.__init__ example_json = inr example_entry)
    by (vm_compute; reflexivity).
  split; [exact H | exact (constructed_host_and_keyname example_json example_entry H)].
Defined.

(** C2, as stated, fails: a [url] line with nothing after the space and a
    reference with an empty second segment give an entry whose host and key
    name are both empty, and a tab in the captured segment stays in the key
    name. *)
Lemma empty_host_and_keyname_constructed :
  (exists self,
     SSHConfigEntry.__init__ (fetched example_key "op://Vault//item" "url ") = inr self
     /\ self !! "url" = Some (VStr "")
     /\ self !! "keyname" = Some (VStr ""))
  /\ (exists self keyname,
        SSHConfigEntry.__init__
          (fetched example_key ("op://Vault/my" +:+ Str.tab +:+ "key/item") "url example.com")
        = inr self
        /\ self !! "keyname" = Some (VStr keyname)
        /\ Str.has_space keyname = true).
Proof.
  split.
  - eexists. split; [vm_compute; reflexivity|]. split; vm_compute; reflexivity.
  - do 2 eexists. split; [vm_compute; reflexivity|]. split; vm_compute; reflexivity.
Qed.

(** C3 (as amended): when construction succeeds the blob has a [url] line,
    and the host is the text after the first space of the last such line,
    character for character; whitespace at the end of the line is part of
    it. *)
Theorem host_is_url_value json self :
  SSHConfigEntry.__init__ json = inr self ->
  exists blob pre post host,
    SSHConfigEntry.blob_of json = inr blob
    /\ Str.split Str.nl_char blob = pre ++ ("url " +:+ host) :: post
    /\ last_value "url" post = None
    /\ self !! "url" = Some (VStr host).
Proof.
  intros (j0 & key & ref & kn & blob & mid & _ & _ & _ & _ & Hb & Hp & Hf)%init_inr.
  apply finish_inr in Hf as (url & kn' & Hu & _ & _ & Hrest).
  pose proof Hu as Hl.
  rewrite (set_params_lookup _ _ _ Hp "url"), initial_lookup in Hl. simpl in Hl.
  destruct (last_value "url" (Str.split Str.nl_char blob)) as [v|] eqn:Hv;
    [|discriminate].
  injection Hl as ->.
  apply last_value_some in Hv as (pre & line & post & Hs & Hl & Hpost).
  apply split1_pair in Hl as [-> _].
  exists blob, pre, post, url. repeat split; auto.
  rewrite Hrest by discriminate. exact Hu.
Qed.

Lemma host_is_url_value_witness :
  SSHConfigEntry.__init__ example_json = inr example_entry
  /\ exists blob pre post host,
       SSHConfigEntry.blob_of example_json = inr blob
       /\ Str.split Str.nl_char blob = pre ++ ("url " +:+ host) :: post
       /\ last_value "url" post = None
       /\ example_entry !! "url" = Some (VStr host).
Proof.
  assert (H : SSHConfigEntry.__init__ example_json = inr example_entry)
    by (vm_compute; reflexivity).
  split; [exact H | exact (host_is_url_value example_json example_entry H)].
Defined.

(** C3, as stated, fails: the space that ends the line [url example.com ]
    ends the host too. *)
Lemma host_keeps_trailing_space :
  exists self host,
    SSHConfigEntry.__init__ (fetched example_key example_reference "url example.com ")
    = inr self
    /\ self !! "url" = Some (VStr host)
    /\ host = "example.com "
    /\ Str.ends_with_space host = true.
Proof.
  do 2 eexists. split; [vm_compute; reflexivity|].
  split; [vm_compute; reflexivity|]. split; reflexivity.
Qed.

(** C4: without a match of the reference the constructor raises
    [AttributeError] at line 71, before it looks at the parameters: the
    error is not the [ValueError] of line 89 and names no entry. *)
Example missing_url_unmatched_reference :
  SSHConfigEntry.__init__ (fetched example_key dotted_reference "user admin")
  = inl (AttributeError "'NoneType' object has no attribute 'group'").
Proof. vm_compute. reflexivity. Qed.

(** C6: the empty piece that [split] returns after a final newline has no
    space to split at, and unpacking it raises [ValueError]: the blob
    [url example.com] builds an entry, the same blob with a newline after
    it does not. *)
Example trailing_newline_raises :
  SSHConfigEntry.__init__
    (fetched example_key example_reference ("url example.com" +:+ Str.nl))
  = inl (ValueError "not enough values to unpack (expected 2, got 1)")
  /\ exists self,
       SSHConfigEntry.__init__ (fetched example_key example_reference "url example.com")
       = inr self.
Proof. split; [vm_compute; reflexivity | eexists; vm_compute; reflexivity]. Qed.

(** ** Lines that set no significant name *)

Lemma agree_refl a : agree a a.
Proof. now intros name _. Qed.

Lemma agree_insert a b name v :
  agree a b -> agree (<[name := v]> a) (<[name := v]> b).
Proof.
  intros H n Hn. destruct (String.eqb_spec name n) as [->|Hne].
  - now rewrite !lookup_insert_eq.
  - rewrite !lookup_insert_ne by assumption. now apply H.
Qed.

Lemma agree_insert_l a b name v :
  is_significant name = false -> agree a b -> agree (<[name := v]> a) b.
Proof.
  intros Hs H n Hn. rewrite lookup_insert_ne; [now apply H|].
  intros ->. congruence.
Qed.

Lemma setattr_insignificant self name v :
  is_significant name = false ->
  SSHConfigEntry.setattr self name v = inr (<[name := v]> self).
Proof.
  unfold is_significant, significant, SSHConfigEntry.setattr. simpl.
  intros H. repeat (apply orb_false_iff in H as [? H]).
  repeat match goal with E : String.eqb _ _ = false |- _ => rewrite E; clear E end.
  reflexivity.
Qed.

Lemma setattr_agree a b name v :
  agree a b ->
  match SSHConfigEntry.setattr a name v, SSHConfigEntry.setattr b name v with
  | inr a', inr b' => agree a' b'
  | inl e, inl e' => e = e'
  | _, _ => False
  end.
Proof.
  intros H. unfold SSHConfigEntry.setattr.
  repeat match goal with |- context [String.eqb ?x ?y] => destruct (String.eqb x y) end;
    try reflexivity.
  now apply agree_insert.
Qed.

Lemma set_params_kept lines : forall a b,
  agree a b ->
  match SSHConfigEntry.set_params a lines,
        SSHConfigEntry.set_params b (List.filter kept lines) with
  | inr a', inr b' => agree a' b'
  | inl e, inl e' => e = e'
  | _, _ => False
  end.
Proof.
  induction lines as [|line rest IH]; intros a b H; [exact H|].
  cbn [SSHConfigEntry.set_params List.filter].
  destruct (kept line) eqn:Hk; unfold kept, ignorable in Hk.
  - (* the line stays *)
    cbn [SSHConfigEntry.set_params]. unfold SSHConfigEntry.set_param.
    destruct (Str.split1 " " line) as [|k [|v [|]]]; try reflexivity.
    pose proof (setattr_agree a b k (VStr v) H) as Hs.
    destruct (SSHConfigEntry.setattr a k (VStr v)),
             (SSHConfigEntry.setattr b k (VStr v)); try easy.
    simpl. now apply IH.
  - (* the line goes *)
    unfold SSHConfigEntry.set_param.
    destruct (Str.split1 " " line) as [|k [|v [|]]]; try discriminate.
    apply negb_false_iff, negb_true_iff in Hk.
    rewrite setattr_insignificant by assumption. simpl.
    apply IH. now apply agree_insert_l.
Qed.

Lemma finish_agree a b :
  agree a b ->
  match SSHConfigEntry.finish a, SSHConfigEntry.finish b with
  | inr a', inr b' => agree a' b'
  | inl e, inl e' => e = e'
  | _, _ => False
  end.
Proof.
  intros H. unfold SSHConfigEntry.finish, SSHConfigEntry.getattr.
  rewrite (H "url" eq_refl).
  destruct (b !! "url") as [[|url]|]; simpl; try reflexivity.
  - rewrite (H "keyname" eq_refl). destruct (b !! "keyname"); reflexivity.
  - rewrite (H "keyname" eq_refl).
    destruct (b !! "keyname") as [[|kn]|] eqn:Hk; simpl; try reflexivity.
    + rewrite !lookup_insert_eq. simpl. now repeat apply agree_insert.
    + rewrite (H "keyname" eq_refl), Hk. simpl. now apply agree_insert.
Qed.

Lemma call_serialize_agree a b path w :
  agree a b ->
  SSHConfigEntry.call_serialize a path w = SSHConfigEntry.call_serialize b path w.
Proof.
  intros H.
  unfold SSHConfigEntry.call_serialize, SSHConfigEntry.call_method,
    SSHConfigEntry.serialize, SSHConfigEntry.call_method,
    SSHConfigEntry._make_key, SSHConfigEntry.stanza, SSHConfigEntry.getattr.
  rewrite (H "serialize" eq_refl), (H "keyname" eq_refl),
    (H "_make_key" eq_refl), (H "key" eq_refl), (H "url" eq_refl),
    (H "aliases" eq_refl), (H "user" eq_refl), (H "options" eq_refl).
  reflexivity.
Qed.

Lemma last_value_in name lines line v :
  In line lines -> Str.split1 " " line = [name; v] ->
  exists v', last_value name lines = Some v'.
Proof.
  induction lines as [|l rest IH]; simpl; [easy|].
  intros [->|Hin] Hs.
  - destruct (last_value name rest); [eauto|].
    rewrite Hs, String.eqb_refl. eauto.
  - destruct (IH Hin Hs) as [v' ->]. eauto.
Qed.

Lemma filter_pieces_free (lines : list string) :
  Forall (fun piece => Str.mem Str.nl_char piece = false) lines ->
  Forall (fun piece => Str.mem Str.nl_char piece = false) (List.filter kept lines).
Proof.
  induction 1 as [|l rest Hl Hrest IH]; simpl; [constructor|].
  destruct (kept l); [constructor|]; assumption.
Qed.

(** C5 (as amended): a line whose field name is none of [options], [user],
    [aliases], [url], [key], [keyname], [serialize], [_make_key],
    [__class__], [__dict__], [__weakref__] is stored as an attribute and
    changes nothing else: with such lines removed from the blob, the
    constructor fails with the same exception or builds an entry whose
    serialization prints, writes and returns the same. *)
Theorem insignificant_lines_ignored (j0 j1 : jobject) (others : list jobject)
    (blob : string) :
  j1 !! "value" = Some blob ->
  List.filter kept (Str.split Str.nl_char blob) <> [] ->
  match SSHConfigEntry.__init__ (j0 :: j1 :: others),
        SSHConfigEntry.__init__
          (j0 :: <["value" := without_ignorable blob]> j1 :: others) with
  | inr a, inr b =>
      (forall path w,
         SSHConfigEntry.call_serialize a path w = SSHConfigEntry.call_serialize b path w)
      /\ (forall line name v,
            In line (Str.split Str.nl_char blob) ->
            Str.split1 " " line = [name; v] ->
            ignorable line = true ->
            exists v', a !! name = Some (VStr v'))
  | inl e, inl e' => e = e'
  | _, _ => False
  end.
Proof.
  intros Hblob Hkept.
  unfold SSHConfigEntry.__init__, SSHConfigEntry.blob_of, item, member.
  cbn [lookup list_lookup rbind].
  destruct (j0 !! "value") as [key|]; cbn [rbind]; [|reflexivity].
  destruct (j0 !! "reference") as [ref|]; cbn [rbind]; [|reflexivity].
  destruct (SSHConfigEntry.extract_keyname ref) as [e|kn]; cbn [rbind]; [reflexivity|].
  rewrite Hblob, lookup_insert_eq. cbn [rbind].
  unfold without_ignorable.
  rewrite split_join by (auto using filter_pieces_free, split_pieces_free).
  pose proof (set_params_kept (Str.split Str.nl_char blob) _ _
                (agree_refl (SSHConfigEntry.initial key kn))) as Hp.
  destruct (SSHConfigEntry.set_params (SSHConfigEntry.initial key kn)
              (Str.split Str.nl_char blob)) as [e|mid] eqn:Ea,
           (SSHConfigEntry.set_params (SSHConfigEntry.initial key kn)
              (List.filter kept (Str.split Str.nl_char blob))) as [e'|mid'];
    cbn [rbind]; try easy.
  pose proof (finish_agree mid mid' Hp) as Hf.
  destruct (SSHConfigEntry.finish mid) as [e|a] eqn:Efa,
           (SSHConfigEntry.finish mid') as [e'|b]; try easy.
  split.
  - intros path w. now apply call_serialize_agree.
  - intros line name v Hin Hs Hi.
    apply finish_inr in Efa as (_ & _ & _ & _ & _ & Hrest).
    unfold ignorable in Hi. rewrite Hs in Hi. apply negb_true_iff in Hi.
    rewrite Hrest by (intros ->; discriminate).
    rewrite (set_params_lookup _ _ _ Ea name).
    destruct (last_value_in name _ line v Hin Hs) as [v' ->]. eauto.
Qed.

Lemma insignificant_lines_ignored_witness :
  ({[ "value" := noisy_blob ]} : jobject) !! "value" = Some noisy_blob
  /\ List.filter kept (Str.split Str.nl_char noisy_blob) <> []
  /\ match SSHConfigEntry.__init__
            ({[ "value" := example_key; "reference" := example_reference ]}
             :: {[ "value" := noisy_blob ]} :: []),
          SSHConfigEntry.__init__
            ({[ "value" := example_key; "reference" := example_reference ]}
             :: <["value" := without_ignorable noisy_blob]> {[ "value" := noisy_blob ]}
             :: []) with
    | inr a, inr b =>
        (forall path w,
           SSHConfigEntry.call_serialize a path w = SSHConfigEntry.call_serialize b path w)
        /\ (forall line name v,
              In line (Str.split Str.nl_char noisy_blob) ->
              Str.split1 " " line = [name; v] ->
              ignorable line = true ->
              exists v', a !! name = Some (VStr v'))
    | inl e, inl e' => e = e'
    | _, _ => False
    end.
Proof.
  split; [vm_compute; reflexivity|].
  split; [vm_compute; discriminate|].
  apply insignificant_lines_ignored; [vm_compute; reflexivity | vm_compute; discriminate].
Defined.

(** C5, as stated, fails: [keyname] is not one of the four recognized
    names, and a line that sets it renames the key file and changes the
    [IdentityFile] line of the stanza. *)
Lemma keyname_line_changes_output :
  exists a b,
    SSHConfigEntry.__init__ (fetched example_key example_reference renaming_blob) = inr a
    /\ SSHConfigEntry.__init__ (fetched example_key example_reference "url example.com") = inr b
    /\ SSHConfigEntry.call_serialize a "/home/u/.ssh" fresh
       <> SSHConfigEntry.call_serialize b "/home/u/.ssh" fresh.
Proof.
  do 2 eexists. split; [vm_compute; reflexivity|].
  split; [vm_compute; reflexivity|]. vm_compute. discriminate.
Qed.

(** ** The confirmation prompt *)

Lemma lower_char_space c : Str.is_space c = true -> Str.lower_char c = c.
Proof. destruct c as [[] [] [] [] [] [] [] []]; vm_compute; congruence. Qed.

Lemma lower_append a b : Str.lower (a +:+ b) = Str.lower a +:+ Str.lower b.
Proof.
  unfold Str.lower. induction a as [|c a IH]; [reflexivity|].
  rewrite append_cons. simpl. now rewrite IH.
Qed.

Lemma lower_blank s : blank s = true -> Str.lower s = s.
Proof.
  unfold Str.lower. induction s as [|c s IH]; simpl; [reflexivity|].
  intros [Hc Hs]%andb_true_iff. now rewrite lower_char_space, IH.
Qed.

Lemma lstrip_blank pre s : blank pre = true -> Str.lstrip (pre +:+ s) = Str.lstrip s.
Proof.
  induction pre as [|c pre IH]; simpl; [reflexivity|].
  intros [Hc Hs]%andb_true_iff. now rewrite Hc, IH.
Qed.

Lemma rstrip_blank post : blank post = true -> Str.rstrip post = "".
Proof.
  induction post as [|c post IH]; simpl; [reflexivity|].
  intros [Hc Hs]%andb_true_iff. now rewrite IH, Hc.
Qed.

Lemma strip_blank s : blank s = true -> Str.strip s = "".
Proof.
  intros H. unfold Str.strip. apply rstrip_blank.
  induction s as [|c s IH]; simpl in *; [reflexivity|].
  apply andb_true_iff in H as [Hc Hs]. rewrite Hc. auto.
Qed.

Lemma strip_wrapped pre c post :
  blank pre = true -> blank post = true -> Str.is_space c = false ->
  Str.strip (pre +:+ String c post) = String c "".
Proof.
  intros Hpre Hpost Hc. unfold Str.strip.
  rewrite lstrip_blank by assumption. simpl. rewrite Hc. simpl.
  now rewrite rstrip_blank, Hc.
Qed.

Lemma blank_append a b : blank (a +:+ b) = blank a && blank b.
Proof.
  induction a as [|c a IH]; [reflexivity|].
  rewrite append_cons. simpl. now rewrite IH, andb_assoc.
Qed.

(** What the prompt takes for an answer: [y] and [n] in either case and the
    empty line, each with any whitespace around it. *)
Lemma classify_wrapped pre post :
  blank pre = true -> blank post = true ->
  classify (pre +:+ post) = Yes
  /\ classify (pre +:+ "y" +:+ post) = Yes
  /\ classify (pre +:+ "Y" +:+ post) = Yes
  /\ classify (pre +:+ "n" +:+ post) = No
  /\ classify (pre +:+ "N" +:+ post) = No.
Proof.
  intros Hpre Hpost. unfold classify.
  rewrite !lower_append, !(lower_blank pre), !(lower_blank post) by assumption.
  change (Str.lower "y") with "y". change (Str.lower "Y") with "y".
  change (Str.lower "n") with "n". change (Str.lower "N") with "n".
  rewrite (strip_blank (pre +:+ post))
    by (rewrite blank_append, Hpre, Hpost; reflexivity).
  change ("y" +:+ post) with (String "y" post).
  change ("n" +:+ post) with (String "n" post).
  rewrite !strip_wrapped by (assumption || reflexivity).
  repeat split; reflexivity.
Qed.

Lemma confirm_loop_again shown junk : forall pending,
  Forall (fun line => classify line = Again) junk ->
  confirm_loop shown (junk ++ pending)
  = confirm_loop (shown ++ repeat (Prompt question) (length junk)) pending.
Proof.
  revert shown. induction junk as [|line junk IH]; intros shown pending H.
  - simpl. now rewrite app_nil_r.
  - inversion H as [|? ? Hl Hj]; subst. simpl. rewrite Hl, (IH _ _ Hj).
    now rewrite <- app_assoc.
Qed.

Lemma filter_mutates_snoc events e :
  mutates e = false ->
  List.filter mutates (events ++ [e]) = List.filter mutates events.
Proof. intros H. rewrite List.filter_app. simpl. now rewrite H, app_nil_r. Qed.

Lemma filter_mutates_prompts events n :
  List.filter mutates (events ++ repeat (Prompt question) n)
  = List.filter mutates events.
Proof.
  rewrite List.filter_app.
  replace (List.filter mutates (repeat (Prompt question) n)) with (@nil event).
  - apply app_nil_r.
  - induction n; simpl; auto.
Qed.

(** [get_ssh_path] prints and asks but changes no file. *)
Lemma get_ssh_path_harmless env w w' r :
  get_ssh_path env w = (w', r) ->
  List.filter mutates (trace w') = List.filter mutates (trace w).
Proof.
  unfold get_ssh_path, ask_windows_user, call_shell, bind, ret, lift, emit, input.
  destruct (is_wsl env); [|now intros [= <- _]].
  destruct (which env "powershell.exe") as [ps|].
  - destruct (Str.truthy ps).
    + destruct (shell env _); now intros [= <- _].
    + simpl. destruct (stdin w); simpl; intros [= <- _]; simpl;
        rewrite ?filter_mutates_snoc by reflexivity; reflexivity.
  - simpl. destruct (stdin w); simpl; intros [= <- _]; simpl;
      rewrite ?filter_mutates_snoc by reflexivity; reflexivity.
Qed.

(** C7: the prompt takes [y], the empty line and [n] for an answer, in
    either case and with whitespace around them.  When the directory
    exists, the lines typed before the first answer are asked again; an
    answer [n] ends [main] with [SystemExit(0)] and no event that changes
    the file system; an answer [y] or an empty one goes on to the
    generation. *)
Theorem confirmation_prompt (env : Env) (exe path : string) (w w1 : world)
    (junk : list string) (line : string) (rest : list string) :
  get_op_exe env = Some exe ->
  get_ssh_path env
    {| trace := trace w ++ [Stdout "Generating a new SSH directory..."];
       stdin := stdin w |} = (w1, inr path) ->
  exists_ env path = true ->
  stdin w1 = junk ++ line :: rest ->
  Forall (fun l => classify l = Again) junk ->
  let asked :=
    {| trace := trace w1 ++ repeat (Prompt question) (S (length junk));
       stdin := rest |} in
  (forall pre post,
     blank pre = true -> blank post = true ->
     classify (pre +:+ post) = Yes
     /\ classify (pre +:+ "y" +:+ post) = Yes
     /\ classify (pre +:+ "Y" +:+ post) = Yes
     /\ classify (pre +:+ "n" +:+ post) = No
     /\ classify (pre +:+ "N" +:+ post) = No)
  /\ match classify line with
     | No =>
         main env w = (asked, inl (SystemExit 0))
         /\ List.filter mutates (trace asked) = List.filter mutates (trace w)
     | Yes => main env w = generate env exe path asked
     | Again => main env w = (run _ <- confirm; generate env exe path) asked
     end.
Proof.
  intros Hexe Hpath Hex Hin Hjunk asked.
  split; [exact classify_wrapped|].
  assert (Hmain : main env w
                  = (run _ <- confirm; generate env exe path) w1).
  { unfold main. rewrite Hexe. unfold bind at 1. unfold emit at 1.
    unfold bind at 1. rewrite Hpath. now rewrite Hex. }
  assert (Hloop : confirm w1
                  = confirm_loop (trace w1 ++ repeat (Prompt question) (length junk))
                      (line :: rest)).
  { unfold confirm. rewrite Hin. now apply confirm_loop_again. }
  assert (Hasked : trace asked
                   = (trace w1 ++ repeat (Prompt question) (length junk))
                       ++ [Prompt question]).
  { unfold asked. simpl. rewrite <- app_assoc. f_equal.
    apply (repeat_cons (length junk) (Prompt question)). }
  assert (Hstep : confirm w1
                  = match classify line with
                    | Yes => (asked, inr tt)
                    | No => (asked, inl (SystemExit 0))
                    | Again => confirm asked
                    end).
  { rewrite Hloop. cbn [confirm_loop]. rewrite <- Hasked.
    unfold confirm. now destruct (classify line). }
  rewrite Hmain. unfold bind. rewrite Hstep.
  destruct (classify line).
  - reflexivity.
  - split; [reflexivity|].
    unfold asked. cbn [trace]. rewrite filter_mutates_prompts.
    rewrite (get_ssh_path_harmless _ _ _ _ Hpath). cbn [trace].
    now apply filter_mutates_snoc.
  - reflexivity.
Qed.

Lemma confirmation_prompt_witness :
  get_op_exe linux_env = Some "/usr/bin/op"
  /\ get_ssh_path linux_env hesitant_greeted = (hesitant_greeted, inr "/home/user/.ssh")
  /\ classify "maybe" = Again
  /\ classify " N " = No
  /\ main linux_env hesitant = (hesitant_asked, inl (SystemExit 0))
  /\ List.filter mutates (trace hesitant_asked) = List.filter mutates (trace hesitant).
Proof.
  assert (H1 : get_op_exe linux_env = Some "/usr/bin/op") by (vm_compute; reflexivity).
  assert (H2 : get_ssh_path linux_env
                 {| trace := trace hesitant ++ [Stdout "Generating a new SSH directory..."];
                    stdin := stdin hesitant |}
               = (hesitant_greeted, inr "/home/user/.ssh")) by (vm_compute; reflexivity).
  assert (H3 : exists_ linux_env "/home/user/.ssh" = true) by reflexivity.
  assert (H4 : stdin hesitant_greeted = ["maybe"] ++ " N " :: ["y"]) by reflexivity.
  assert (H5 : Forall (fun l => classify l = Again) ["maybe"])
    by (repeat constructor).
  split; [exact H1|]. split; [exact H2|].
  split; [reflexivity|]. split; [reflexivity|].
  exact (proj2 (confirmation_prompt linux_env "/usr/bin/op" "/home/user/.ssh"
                  hesitant hesitant_greeted ["maybe"] " N " ["y"]
                  H1 H2 H3 H4 H5)).
Defined.

(** ** Computations that do not look at the world *)

Lemma uniform_ret {A : Type} (x : A) : uniform (ret x).
Proof. exists [], (inr x). intros [tr inp]. unfold ret. simpl. now rewrite app_nil_r. Qed.

Lemma uniform_raise {A : Type} (e : exn) : uniform (@raise A e).
Proof. exists [], (inl e). intros [tr inp]. unfold raise. simpl. now rewrite app_nil_r. Qed.

Lemma uniform_lift {A : Type} (r : result A) : uniform (lift r).
Proof. exists [], r. intros [tr inp]. unfold lift. simpl. now rewrite app_nil_r. Qed.

Lemma uniform_emit (e : event) : uniform (emit e).
Proof. exists [e], (inr tt). reflexivity. Qed.

Lemma uniform_bind {A B : Type} (m : M A) (f : A -> M B) :
  uniform m -> (forall x, uniform (f x)) -> uniform (bind m f).
Proof.
  intros (ev1 & r1 & H1) Hf. destruct r1 as [e|x].
  - exists ev1, (inl e). intros w. unfold bind. now rewrite H1.
  - destruct (Hf x) as (ev2 & r2 & H2).
    exists (ev1 ++ ev2), r2. intros w. unfold bind. rewrite H1, H2. simpl.
    now rewrite app_assoc.
Qed.

Lemma uniform_for_each {A : Type} (body : A -> M unit) (l : list A) :
  (forall x, uniform (body x)) -> uniform (for_each body l).
Proof.
  intros Hb. induction l as [|x l IH]; simpl.
  - apply uniform_ret.
  - apply uniform_bind; auto.
Qed.

Lemma uniform_call_method {A : Type} self name (body : M A) :
  uniform body -> uniform (SSHConfigEntry.call_method self name body).
Proof.
  intros H. unfold SSHConfigEntry.call_method.
  destruct (self !! name) as [[|]|]; auto using uniform_raise.
Qed.

#[local] Hint Resolve uniform_ret uniform_raise uniform_lift uniform_emit
  uniform_for_each uniform_call_method : uniform.

Lemma uniform_make_key self path : uniform (SSHConfigEntry._make_key self path).
Proof. unfold SSHConfigEntry._make_key. uniform_steps_with @uniform_bind. Qed.

Lemma uniform_serialize self path : uniform (SSHConfigEntry.serialize self path).
Proof.
  unfold SSHConfigEntry.serialize. uniform_steps_with @uniform_bind.
  apply uniform_call_method, uniform_make_key.
Qed.

Lemma uniform_call_serialize self path :
  uniform (SSHConfigEntry.call_serialize self path).
Proof. apply uniform_call_method, uniform_serialize. Qed.

Lemma uniform_write_entry config path entry : uniform (write_entry config path entry).
Proof.
  unfold write_entry. uniform_steps_with @uniform_bind. apply uniform_call_serialize.
Qed.

(** After the file is opened, [write_config] goes on the same way in every
    world. *)
Lemma write_config_events env entries path :
  exists events r,
    forall w,
      write_config env entries path w
      = ({| trace := trace w ++ Open (Str.path_join path "config") :: events;
            stdin := stdin w |}, r).
Proof.
  unfold write_config.
  set (config := Str.path_join path "config").
  assert (H : uniform
                (run _ <- emit (FileWrite config header1);
                 run _ <- emit (FileWrite config header2);
                 run _ <- (if negb (is_wsl env)
                           then emit (FileWrite config agent_stanza) else ret tt);
                 for_each (write_entry config path) entries)).
  { uniform_steps_with @uniform_bind.
    - destruct (negb (is_wsl env)); auto with uniform.
    - apply uniform_for_each. intros entry. apply uniform_write_entry. }
  destruct H as (events & r & H). exists events, r. intros w.
  unfold bind at 1. unfold emit at 1. rewrite H. simpl.
  now rewrite <- app_assoc.
Qed.

Lemma write_config_same_platform env1 env2 entries path :
  is_wsl env1 = is_wsl env2 ->
  write_config env1 entries path = write_config env2 entries path.
Proof. intros H. unfold write_config. now rewrite H. Qed.

(** Before the file is opened, [make_config] only archives, removes and
    creates the directory. *)
Lemma make_config_events env entries path :
  exists before,
    forall w,
      make_config env entries path w
      = write_config env entries path
          {| trace := trace w ++ before; stdin := stdin w |}.
Proof.
  unfold make_config. destruct (exists_ env path).
  - eexists. intros w. unfold bind, emit. simpl.
    rewrite <- !app_assoc. simpl. reflexivity.
  - eexists. intros w. unfold bind, emit, ret. simpl. reflexivity.
Qed.

Lemma written_after_open file before events :
  written file (before ++ Open file :: events)
  = fold_left (written_step file) events "".
Proof.
  unfold written. rewrite fold_left_app. simpl. now rewrite String.eqb_refl.
Qed.

(** ** Serialization *)



Lemma serialize_inr self path w w' text :
  SSHConfigEntry.call_serialize self path w = (w', inr text) ->
  SSHConfigEntry.stanza self = inr text
  /\ exists keyname key,
       self !! "keyname" = Some (VStr keyname)
       /\ self !! "key" = Some (VStr key)
       /\ w' = {| trace := trace w ++
                    [ Stdout ("Generating key and config entry for " +:+ keyname);
                      Open (Str.path_join path (keyname +:+ ".pub"));
                      FileWrite (Str.path_join path (keyname +:+ ".pub")) key ];
                  stdin := stdin w |}.
Proof.
  unfold SSHConfigEntry.call_serialize, SSHConfigEntry.call_method,
    SSHConfigEntry.serialize, SSHConfigEntry.call_method,
    SSHConfigEntry._make_key, SSHConfigEntry.getattr,
    SSHConfigEntry.plus_str, SSHConfigEntry.text_of.
  destruct (self !! "serialize") as [[|]|]; try (intros [= _ ?]; discriminate).
  destruct (self !! "keyname") as [[|keyname]|];
    unfold bind, lift, emit, raise; simpl; try (intros [= _ ?]; discriminate).
  - destruct (self !! "_make_key") as [[|]|]; intros [= _ ?]; discriminate.
  - destruct (self !! "_make_key") as [[|]|]; try (intros [= _ ?]; discriminate).
    destruct (self !! "key") as [[|key]|]; simpl; try (intros [= _ ?]; discriminate).
    intros [= <- Hs]. split; [exact Hs|].
    exists keyname, key. repeat split. now rewrite <- !app_assoc.
Qed.

Lemma option_lines_prefix res options :
  exists tail, SSHConfigEntry.option_lines res options = res +:+ tail.
Proof.
  unfold SSHConfigEntry.option_lines.
  generalize (Str.split "," options). intros opts. revert res.
  induction opts as [|opt opts IH]; intros res; simpl.
  - exists "". now rewrite append_empty_r.
  - destruct (IH (res +:+ Str.tab +:+ opt +:+ Str.nl)) as [tail ->].
    eexists. rewrite !append_assoc. reflexivity.
Qed.

Lemma stanza_host_line self text aliases host :
  SSHConfigEntry.stanza self = inr text ->
  self !! "aliases" = Some aliases -> truth aliases = false ->
  self !! "url" = Some (VStr host) ->
  exists rest, text = ("Host " +:+ host +:+ " ") +:+ Str.nl +:+ rest.
Proof.
  intros Hs Ha Ht Hu. unfold SSHConfigEntry.stanza, SSHConfigEntry.getattr in Hs.
  rewrite Hu, Ha in Hs. cbn [rbind format] in Hs.
  assert (Hnames : match aliases with
                   | VNone => ""
                   | VStr a => if Str.truthy a then Str.replace "," " " a else ""
                   end = "").
  { destruct aliases as [|a]; [reflexivity|]. simpl in Ht. now rewrite Ht. }
  rewrite Hnames in Hs. clear Hnames.
  destruct (self !! "keyname") as [keyname|]; [|discriminate]. cbn [rbind] in Hs.
  destruct (SSHConfigEntry.plus_str keyname ".pub") as [|name]; [discriminate|].
  cbn [rbind] in Hs.
  destruct (self !! "user") as [user|]; [|discriminate]. cbn [rbind] in Hs.
  destruct (self !! "options") as [options|]; [|discriminate]. cbn [rbind] in Hs.
  injection Hs as <-.
  assert (Hopt : forall res, exists tail,
             match options with
             | VNone => res
             | VStr o => if Str.truthy o then SSHConfigEntry.option_lines res o else res
             end = res +:+ tail).
  { intros res. destruct options as [|o].
    - exists "". now rewrite append_empty_r.
    - destruct (Str.truthy o); [apply option_lines_prefix|].
      exists "". now rewrite append_empty_r. }
  match goal with
  | |- context [(if truth user then ?yes else ?no)] =>
      destruct (Hopt (if truth user then yes else no)) as [tail ->]
  end.
  destruct (truth user); eexists; rewrite !append_assoc; reflexivity.
Qed.

(** C10: an entry without aliases has the Host line [Host <host> ], with a
    space between the host and the newline. *)
Theorem host_line_without_aliases (self : SSHConfigEntry.attrs) (path : string)
    (w w' : world) (text : string) (aliases : value) (host : string) :
  SSHConfigEntry.call_serialize self path w = (w', inr text) ->
  self !! "aliases" = Some aliases -> truth aliases = false ->
  self !! "url" = Some (VStr host) ->
  (exists rest, text = "Host " +:+ host +:+ " " +:+ Str.nl +:+ rest)
  /\ (Str.mem Str.nl_char host = false ->
      hd "" (Str.split Str.nl_char text) = "Host " +:+ host +:+ " ").
Proof.
  intros [Hs _]%serialize_inr Ha Ht Hu.
  destruct (stanza_host_line self text aliases host Hs Ha Ht Hu) as [rest ->].
  split.
  - exists rest. now rewrite !append_assoc.
  - intros Hfree. change (Str.nl +:+ rest) with (String Str.nl_char rest).
    rewrite split_cons_free; [reflexivity|].
    rewrite !mem_append, Hfree. reflexivity.
Qed.

Lemma host_line_without_aliases_witness :
  snd (SSHConfigEntry.call_serialize bare_entry "/home/user/.ssh" fresh) = inr bare_stanza
  /\ hd "" (Str.split Str.nl_char bare_stanza) = "Host example.com ".
Proof.
  assert (H : SSHConfigEntry.call_serialize bare_entry "/home/user/.ssh" fresh
              = (fst (SSHConfigEntry.call_serialize bare_entry "/home/user/.ssh" fresh),
                 inr bare_stanza)) by (vm_compute; reflexivity).
  split; [now rewrite H|].
  apply (proj2 (host_line_without_aliases bare_entry "/home/user/.ssh" fresh _
                  bare_stanza VNone "example.com" H eq_refl eq_refl eq_refl)).
  reflexivity.
Defined.

(** ** The configuration file *)

Lemma endswith_append c a b :
  b <> "" -> Str.endswith_char c (a +:+ b) = Str.endswith_char c b.
Proof.
  intros Hb. induction a as [|x a IH]; [reflexivity|].
  rewrite append_cons. simpl. rewrite IH.
  destruct (a +:+ b) eqn:E; [|reflexivity].
  destruct a; [exact (False_ind _ (Hb E)) | rewrite append_cons in E; discriminate].
Qed.

Lemma endswith_path_join c a b :
  b <> "" -> Str.endswith_char c (Str.path_join a b) = Str.endswith_char c b.
Proof.
  intros Hb. unfold Str.path_join.
  destruct (Str.startswith "/" b); [reflexivity|].
  destruct (negb (Str.truthy a) || Str.endswith_char "/" a).
  - now apply endswith_append.
  - rewrite endswith_append; [now apply endswith_append|].
    now destruct b.
Qed.

(** A key file is never the configuration file: its name ends in [.pub]. *)
Lemma key_file_not_config path keyname :
  String.eqb (Str.path_join path (keyname +:+ ".pub")) (Str.path_join path "config")
  = false.
Proof.
  apply String.eqb_neq. intros E.
  assert (H : Str.endswith_char "g" (Str.path_join path (keyname +:+ ".pub"))
              = Str.endswith_char "g" (Str.path_join path "config")) by now rewrite E.
  rewrite !endswith_path_join in H.
  - rewrite endswith_append in H by discriminate. discriminate.
  - discriminate.
  - destruct keyname; discriminate.
Qed.

Lemma for_each_write_entry path entries : forall w w',
  for_each (write_entry (Str.path_join path "config") path) entries w = (w', inr tt) ->
  exists stanzas events,
    Forall2 (fun entry text => SSHConfigEntry.stanza entry = inr text) entries stanzas
    /\ trace w' = trace w ++ events
    /\ forall text,
         fold_left (written_step (Str.path_join path "config")) events text
         = text +:+ stanzas_text stanzas.
Proof.
  set (config := Str.path_join path "config").
  induction entries as [|entry rest IH]; intros w w' H.
  - injection H as <-. exists [], []. repeat split.
    + constructor.
    + now rewrite app_nil_r.
    + intros text. simpl. now rewrite append_empty_r.
  - cbn [for_each] in H. unfold bind at 1 in H.
    destruct (write_entry config path entry w) as [w1 [e|[]]] eqn:E; [discriminate|].
    unfold write_entry, bind, emit in E. cbn [trace stdin] in E.
    destruct (SSHConfigEntry.call_serialize entry path _) as [w2 [e|text]] eqn:Es;
      [discriminate|].
    injection E as <-.
    apply serialize_inr in Es as (Hst & keyname & key & _ & _ & ->).
    destruct (IH _ _ H) as (stanzas & events & Hall & Htr & Hw).
    eexists (text :: stanzas), _. split; [now constructor|]. split.
    + rewrite Htr. cbn [trace]. rewrite <- !app_assoc. reflexivity.
    + intros acc. rewrite fold_left_app. cbn [fold_left app written_step].
      fold config. rewrite !String.eqb_refl, !key_file_not_config.
      rewrite Hw. cbn [stanzas_text]. now rewrite !append_assoc.
Qed.

(** C8: when [make_config] has run to its end, the configuration file
    holds the two header lines, then, if the platform is not WSL, once the
    line [Host *] followed by the indented line
    [IdentityAgent ~/.1password/agent.sock], and if it is WSL nothing in
    that place, then for each entry in order a newline and its stanza. *)
Theorem config_layout (env : Env) (entries : list SSHConfigEntry.attrs)
    (path : string) (w w' : world) :
  make_config env entries path w = (w', inr tt) ->
  exists stanzas,
    Forall2 (fun entry text => SSHConfigEntry.stanza entry = inr text) entries stanzas
    /\ written (Str.path_join path "config") (trace w')
       = ("# This file was automatically generated by a Chezmoi script. Changes will be overwritten if `chezmoi apply` or `chezmoi update` is ran."
          +:+ Str.nl)
         +:+ ("# You can find the script somewhere in the directory opened with `chezmoi cd`."
              +:+ Str.nl +:+ Str.nl)
         +:+ (if is_wsl env then ""
              else "Host *" +:+ Str.nl
                   +:+ Str.tab +:+ "IdentityAgent ~/.1password/agent.sock" +:+ Str.nl)
         +:+ stanzas_text stanzas.
Proof.
  intros H.
  change (exists stanzas,
            Forall2 (fun entry text => SSHConfigEntry.stanza entry = inr text)
              entries stanzas
            /\ written (Str.path_join path "config") (trace w')
               = header1 +:+ header2
                 +:+ (if is_wsl env then "" else agent_stanza)
                 +:+ stanzas_text stanzas).
  destruct (make_config_events env entries path) as (before & Hb).
  rewrite Hb in H. clear Hb.
  unfold write_config, bind, emit, ret in H.
  destruct (is_wsl env); cbn [negb trace stdin] in H;
    apply for_each_write_entry in H as (stanzas & events & Hall & Htr & Hw);
    exists stanzas; (split; [exact Hall|]);
    rewrite Htr; cbn [trace]; unfold written;
    rewrite !fold_left_app; cbn [fold_left written_step];
    rewrite !String.eqb_refl, Hw;
    rewrite ?append_assoc; reflexivity.
Qed.

Lemma config_layout_witness :
  snd (make_config linux_env [example_entry] "/home/user/.ssh" fresh) = inr tt
  /\ exists stanzas,
       Forall2 (fun entry text => SSHConfigEntry.stanza entry = inr text)
         [example_entry] stanzas
       /\ written (Str.path_join "/home/user/.ssh" "config")
            (trace (fst (make_config linux_env [example_entry] "/home/user/.ssh" fresh)))
          = ("# This file was automatically generated by a Chezmoi script. Changes will be overwritten if `chezmoi apply` or `chezmoi update` is ran."
             +:+ Str.nl)
            +:+ ("# You can find the script somewhere in the directory opened with `chezmoi cd`."
                 +:+ Str.nl +:+ Str.nl)
            +:+ (if is_wsl linux_env then ""
                 else "Host *" +:+ Str.nl
                      +:+ Str.tab +:+ "IdentityAgent ~/.1password/agent.sock" +:+ Str.nl)
            +:+ stanzas_text stanzas.
Proof.
  assert (H : make_config linux_env [example_entry] "/home/user/.ssh" fresh
              = (fst (make_config linux_env [example_entry] "/home/user/.ssh" fresh),
                 inr tt)) by (vm_compute; reflexivity).
  split; [now rewrite H|].
  exact (config_layout linux_env [example_entry] "/home/user/.ssh" fresh _ H).
Defined.

(** The file of the sample entry on Linux and under WSL. *)
Example config_on_linux :
  written "/home/user/.ssh/config"
    (trace (fst (make_config linux_env [example_entry] "/home/user/.ssh" fresh)))
  = header1 +:+ header2 +:+ agent_stanza +:+ Str.nl +:+ example_stanza.
Proof. vm_compute. reflexivity. Qed.

Example config_under_wsl :
  written "/mnt/c/users/user/.ssh/config"
    (trace (fst (make_config wsl_env [example_entry] "/mnt/c/users/user/.ssh" fresh)))
  = header1 +:+ header2 +:+ Str.nl +:+ example_stanza.
Proof. vm_compute. reflexivity. Qed.

(** ** More about the entry parser *)

Lemma startswith_append p s : Str.startswith p (p +:+ s) = true.
Proof.
  induction p as [|c p IH]; [reflexivity|].
  rewrite append_cons. simpl. now rewrite Ascii.eqb_refl, IH.
Qed.

Lemma last_value_none_url lines :
  Forall (fun line => Str.startswith "url " line = false) lines ->
  last_value "url" lines = None.
Proof.
  intros H. destruct (last_value "url" lines) as [v|] eqn:E; [|reflexivity].
  apply last_value_some in E as (pre & line & post & -> & Hs & _).
  apply split1_pair in Hs as [-> _].
  apply Forall_app in H as [_ H]. inversion H as [|? ? Hl _]; subst.
  change ("url" +:+ String " " v) with ("url " +:+ v) in Hl.
  now rewrite startswith_append in Hl.
Qed.

(** Without a line that starts with [url ] no entry is built, whatever the
    reference and the other lines are. *)
Theorem missing_url_never_constructs (json : list jobject) (blob : string) :
  SSHConfigEntry.blob_of json = inr blob ->
  Forall (fun line => Str.startswith "url " line = false)
    (Str.split Str.nl_char blob) ->
  exists e, SSHConfigEntry.__init__ json = inl e.
Proof.
  intros Hb Hlines%last_value_none_url.
  destruct (SSHConfigEntry.__init__ json) as [e|self] eqn:E; [eauto|].
  apply init_inr in E as (j0 & key & ref & kn & blob' & mid & _ & _ & _ & _ & Hb' & Hp & Hf).
  rewrite Hb in Hb'. injection Hb' as <-.
  apply finish_inr in Hf as (url & _ & Hu & _).
  rewrite (set_params_lookup _ _ _ Hp "url"), Hlines, initial_lookup in Hu.
  discriminate.
Qed.

Lemma missing_url_never_constructs_witness :
  SSHConfigEntry.blob_of (fetched example_key example_reference "user admin")
  = inr "user admin"
  /\ exists e,
       SSHConfigEntry.__init__ (fetched example_key example_reference "user admin")
       = inl e.
Proof.
  assert (H : SSHConfigEntry.blob_of (fetched example_key example_reference "user admin")
              = inr "user admin") by (vm_compute; reflexivity).
  split; [exact H|].
  apply (missing_url_never_constructs _ "user admin" H).
  repeat constructor.
Defined.

(** When the reference gives a label and the lines parse, set no [url] and
    leave [keyname] alone, the exception is the [ValueError] of line 89 and
    its message ends with the label as captured. *)
Theorem missing_url_names_entry (json : list jobject) (j0 : jobject)
    (key ref blob : string) (label : value) (mid : SSHConfigEntry.attrs) :
  json !! 0 = Some j0 -> j0 !! "value" = Some key ->
  j0 !! "reference" = Some ref ->
  SSHConfigEntry.extract_keyname ref = inr label ->
  SSHConfigEntry.blob_of json = inr blob ->
  SSHConfigEntry.set_params (SSHConfigEntry.initial key label)
    (Str.split Str.nl_char blob) = inr mid ->
  last_value "url" (Str.split Str.nl_char blob) = None ->
  last_value "keyname" (Str.split Str.nl_char blob) = None ->
  SSHConfigEntry.__init__ json
  = inl (ValueError
           ("Key does not specify a URL to connect to! Add a URL field to the 1Password entry for "
            +:+ format label)).
Proof.
  intros H0 Hv Hr Hk Hb Hp Hu Hn.
  unfold SSHConfigEntry.__init__, item, member.
  rewrite H0. cbn [rbind]. rewrite Hv. cbn [rbind]. rewrite Hr. cbn [rbind].
  rewrite Hk. cbn [rbind]. rewrite Hb. cbn [rbind]. rewrite Hp. cbn [rbind].
  unfold SSHConfigEntry.finish, SSHConfigEntry.getattr.
  rewrite (set_params_lookup _ _ _ Hp "url"), Hu, initial_lookup. cbn.
  rewrite (set_params_lookup _ _ _ Hp "keyname"), Hn, initial_lookup. cbn.
  reflexivity.
Qed.

Lemma missing_url_names_entry_witness :
  SSHConfigEntry.__init__ (fetched example_key example_reference "user admin")
  = inl (ValueError
           "Key does not specify a URL to connect to! Add a URL field to the 1Password entry for Example Host").
Proof.
  apply (missing_url_names_entry
           (fetched example_key example_reference "user admin")
           {[ "value" := example_key; "reference" := example_reference ]}
           example_key example_reference "user admin" (VStr "Example Host")
           (<["user" := VStr "admin"]>
              (SSHConfigEntry.initial example_key (VStr "Example Host"))));
    vm_compute; reflexivity.
Defined.

(** When the reference gives a label and no line sets [keyname], the key
    name of the entry is the label with its spaces replaced by
    underscores. *)
Theorem keyname_is_label (json : list jobject) (j0 : jobject) (ref blob label : string)
    (self : SSHConfigEntry.attrs) :
  json !! 0 = Some j0 -> j0 !! "reference" = Some ref ->
  SSHConfigEntry.extract_keyname ref = inr (VStr label) ->
  SSHConfigEntry.blob_of json = inr blob ->
  last_value "keyname" (Str.split Str.nl_char blob) = None ->
  SSHConfigEntry.__init__ json = inr self ->
  self !! "keyname" = Some (VStr (Str.replace " " "_" label)).
Proof.
  intros H0 Hr Hk Hb Hn
    (j0' & key & ref' & kn & blob' & mid & H0' & _ & Hr' & Hk' & Hb' & Hp & Hf)%init_inr.
  rewrite H0 in H0'. injection H0' as <-.
  rewrite Hr in Hr'. injection Hr' as <-.
  rewrite Hk in Hk'. injection Hk' as <-.
  rewrite Hb in Hb'. injection Hb' as <-.
  apply finish_inr in Hf as (url & kn & _ & Hkn & Hself & _).
  rewrite (set_params_lookup _ _ _ Hp "keyname"), Hn, initial_lookup in Hkn.
  cbn in Hkn. destruct Hkn as [[= <-]|[[=] _]]. exact Hself.
Qed.

Lemma keyname_is_label_witness :
  SSHConfigEntry.extract_keyname example_reference = inr (VStr "Example Host")
  /\ example_entry !! "keyname" = Some (VStr (Str.replace " " "_" "Example Host")).
Proof.
  assert (H : SSHConfigEntry.extract_keyname example_reference
              = inr (VStr "Example Host")) by (vm_compute; reflexivity).
  split; [exact H|].
  apply (keyname_is_label example_json
           {[ "value" := example_key; "reference" := example_reference ]}
           example_reference example_blob "Example Host" example_entry);
    vm_compute; reflexivity.
Defined.

(** ** What the matcher finds *)

(** Whatever a plain pattern leaves to the rest of the match, it has
    consumed a text it denotes. *)
Lemma run_sound r :
  plain r = true ->
  forall k i s c m,
    Re.run r k i s c = Some m ->
    exists p s', s = p ++ s' /\ denotes r p /\ k (i + length p) s' c = Some m.
Proof.
  induction r as [| | |a|a| | | |r1 IH1 r2 IH2|greedy body IH|n body IH];
    intros Hp k i s c m H; simpl in Hp; try discriminate.
  - exists [], s. simpl. rewrite Nat.add_0_r. auto using denotes_empty.
  - simpl in H. destruct s as [|x s']; [discriminate|].
    destruct (Ascii.eqb x a) eqn:E; [|discriminate].
    apply Ascii.eqb_eq in E as ->. exists [a], s'. simpl.
    rewrite Nat.add_1_r. auto using denotes_lit.
  - simpl in H. destruct s as [|x s']; [discriminate|].
    destruct (Ascii.eqb _ _) eqn:E; [|discriminate].
    apply Ascii.eqb_eq in E. exists [x], s'. simpl.
    rewrite Nat.add_1_r. auto using denotes_liti.
  - simpl in H. destruct s as [|x s']; [discriminate|].
    destruct (Ascii.eqb x Str.nl_char) eqn:E; [discriminate|].
    apply Ascii.eqb_neq in E. exists [x], s'. simpl.
    rewrite Nat.add_1_r. auto using denotes_dot.
  - simpl in H. destruct s as [|x s']; [discriminate|].
    destruct (Str.is_word x) eqn:E; [|discriminate].
    exists [x], s'. simpl. rewrite Nat.add_1_r. auto using denotes_word.
  - simpl in H. destruct s as [|x s']; [discriminate|].
    destruct (Str.is_space x) eqn:E; [|discriminate].
    exists [x], s'. simpl. rewrite Nat.add_1_r. auto using denotes_space.
  - apply andb_true_iff in Hp as [Hp1 Hp2]. simpl in H.
    apply (IH1 Hp1) in H as (p1 & s1 & -> & Hd1 & H).
    apply (IH2 Hp2) in H as (p2 & s2 & -> & Hd2 & H).
    exists (p1 ++ p2), s2. rewrite length_app, Nat.add_assoc, <- app_assoc.
    auto using denotes_seq.
  - simpl in H. revert H. generalize (length s) at 1. intros fuel.
    revert i s c m. induction fuel as [|fuel IHfuel]; intros i s c m H.
    + assert (Hk : k i s c = Some m)
        by (destruct greedy; [exact H | destruct (k i s c); congruence]).
      exists [], s. simpl. rewrite Nat.add_0_r. auto using denotes_star_done.
    + simpl in H. set (again := Re.run body _ i s c) in H.
      assert (Hcase : k i s c = Some m \/ again = Some m)
        by (destruct greedy;
            [destruct again; [right; congruence | left; exact H]
            |destruct (k i s c); [left; congruence | right; exact H]]).
      unfold again in Hcase. clear again H.
      destruct Hcase as [Hk|Hb].
      * exists [], s. simpl. rewrite Nat.add_0_r. auto using denotes_star_done.
      * apply (IH Hp) in Hb as (p1 & s1 & -> & Hd1 & Hb).
        destruct (Nat.ltb (length s1) (length (p1 ++ s1))); [|discriminate].
        apply IHfuel in Hb as (p2 & s2 & -> & Hd2 & Hb).
        exists (p1 ++ p2), s2. rewrite length_app, Nat.add_assoc, <- app_assoc.
        auto using denotes_star_more.
Qed.

Lemma denotes_allows r p :
  denotes r p -> Forall (fun x => allows r x = true) p.
Proof.
  induction 1 as [|a|a x Hx|x Hx|x Hx|x Hx|r1 r2 p1 p2 _ IH1 _ IH2
                  |greedy body|greedy body p1 p2 _ IH1 _ IH2]; simpl.
  - constructor.
  - repeat constructor. apply Ascii.eqb_refl.
  - repeat constructor. now apply Ascii.eqb_eq.
  - repeat constructor. apply negb_true_iff. now apply Ascii.eqb_neq.
  - now repeat constructor.
  - now repeat constructor.
  - apply Forall_app. split.
    + eapply Forall_impl; [exact IH1|]. simpl. intros x ->. reflexivity.
    + eapply Forall_impl; [exact IH2|]. simpl. intros x ->. apply orb_true_r.
  - constructor.
  - apply Forall_app. split; assumption.
Qed.

Lemma denotes_lits w p :
  denotes (Re.Lits Re.Lit w) p -> p = list_ascii_of_string w.
Proof.
  revert p. induction w as [|a w IH]; simpl; intros p H.
  - now inversion H.
  - inversion H as [| | | | | |r1 r2 p1 p2 H1 H2| |]; subst.
    inversion H1; subst. simpl. f_equal. now apply IH.
Qed.

Lemma string_of_app (a b : list ascii) :
  string_of_list_ascii (a ++ b) = string_of_list_ascii a +:+ string_of_list_ascii b.
Proof. induction a as [|x a IH]; simpl; [reflexivity|]. now rewrite IH. Qed.

Lemma wordy_of_words greedy p :
  denotes (Re.Star greedy SSHConfigEntry.words) p ->
  wordy (string_of_list_ascii p) = true.
Proof.
  intros H%denotes_allows. induction H as [|x p Hx _ IH]; simpl; [reflexivity|].
  rewrite IH, andb_true_r. simpl in Hx.
  now rewrite orb_diag in Hx.
Qed.

Lemma run_seq r1 r2 k i s c :
  Re.run (Re.Seq r1 r2) k i s c = Re.run r1 (Re.run r2 k) i s c.
Proof. reflexivity. Qed.

Lemma run_group n body k i s c :
  Re.run (Re.Group n body) k i s c
  = Re.run body
      (fun i' s' c' => k i' s' (<[n := string_of_list_ascii (take (i' - i) s)]> c'))
      i s c.
Proof. reflexivity. Qed.

(** What a match of the reference pattern says about the reference: it
    is [op://], a first segment, a slash, the captured segment, a slash and
    a rest without a line break before its end; both segments are made of
    word characters and whitespace. *)
Theorem reference_shape (ref label : string) :
  SSHConfigEntry.extract_keyname ref = inr (VStr label) ->
  exists vault rest,
    ref = "op://" +:+ vault +:+ "/" +:+ label +:+ "/" +:+ rest
    /\ wordy vault = true
    /\ wordy label = true
    /\ exists line, (rest = line \/ rest = line +:+ Str.nl)
                    /\ Str.mem Str.nl_char line = false.
Proof.
  unfold SSHConfigEntry.extract_keyname, SSHConfigEntry.group, Re.rmatch.
  destruct (Re.run _ _ _ _ _) as [m|] eqn:E; [|discriminate].
  change (Nat.leb 1 (Re.ngroups SSHConfigEntry.reference_pattern)) with true.
  cbv iota. intros Hm.
  unfold SSHConfigEntry.reference_pattern in E.
  rewrite run_seq in E. change (Re.run Re.Bol ?k 0 ?s ?c) with (k 0 s c) in E.
  rewrite run_seq in E.
  apply run_sound in E as (p0 & s0 & Hs0 & Hd0%denotes_lits & E); [|reflexivity].
  rewrite run_seq in E.
  apply run_sound in E as (p1 & s1 & -> & Hd1 & E); [|reflexivity].
  rewrite run_seq in E.
  apply run_sound in E as (q1 & s2 & -> & Hq1 & E); [|reflexivity].
  inversion Hq1; subst q1. clear Hq1.
  rewrite run_seq, run_group in E.
  apply run_sound in E as (p3 & s3 & -> & Hd3 & E); [|reflexivity].
  rewrite run_seq in E.
  apply run_sound in E as (q2 & s4 & -> & Hq2 & E); [|reflexivity].
  inversion Hq2; subst q2. clear Hq2.
  rewrite run_seq in E.
  apply run_sound in E as (p4 & s5 & -> & Hd4 & E); [|reflexivity].
  assert (Htake : forall i n, i + n - i = n) by (intros; lia).
  rewrite Htake, take_app_length in E.
  assert (Hend : (s5 = [] \/ s5 = [Str.nl_char])
                 /\ m = <[1 := string_of_list_ascii p3]> ∅).
  { simpl in E. destruct s5 as [|x [|y s5]]; try discriminate.
    - injection E as <-. auto.
    - destruct (Ascii.eqb x Str.nl_char) eqn:Ex; [|discriminate].
      apply Ascii.eqb_eq in Ex as ->. injection E as <-. auto. }
  destruct Hend as [Hs5 ->]. rewrite lookup_insert_eq in Hm.
  injection Hm as <-.
  exists (string_of_list_ascii p1),
         (string_of_list_ascii p4 +:+ string_of_list_ascii s5).
  split; [|split; [|split]].
  - rewrite <- (string_of_list_ascii_of_string ref), Hs0, Hd0.
    now rewrite !string_of_app.
  - eapply wordy_of_words, Hd1.
  - eapply wordy_of_words, Hd3.
  - exists (string_of_list_ascii p4). split.
    + destruct Hs5 as [->| ->]; [left; apply append_empty_r | right; reflexivity].
    + apply denotes_allows in Hd4. clear -Hd4.
      induction Hd4 as [|x p Hx _ IH]; simpl; [reflexivity|].
      rewrite IH, orb_false_r. simpl in Hx. now apply negb_true_iff.
Qed.

Lemma reference_shape_witness :
  SSHConfigEntry.extract_keyname example_reference = inr (VStr "Example Host")
  /\ exists vault rest,
       example_reference = "op://" +:+ vault +:+ "/" +:+ "Example Host" +:+ "/" +:+ rest
       /\ wordy vault = true
       /\ wordy "Example Host" = true
       /\ exists line, (rest = line \/ rest = line +:+ Str.nl)
                       /\ Str.mem Str.nl_char line = false.
Proof.
  assert (H : SSHConfigEntry.extract_keyname example_reference
              = inr (VStr "Example Host")) by (vm_compute; reflexivity).
  split; [exact H | exact (reference_shape example_reference "Example Host" H)].
Defined.

(** ** The signing filter *)

Lemma denotes_lits_ci w p :
  denotes (Re.Lits Re.LitI w) p ->
  Str.lower (string_of_list_ascii p) = Str.lower w.
Proof.
  revert p. induction w as [|a w IH]; simpl; intros p H.
  - now inversion H.
  - inversion H as [| | | | | |r1 r2 p1 p2 H1 H2| |]; subst.
    inversion H1 as [| |a' x Hx| | | | | |]; subst. simpl.
    unfold Str.lower in *. simpl. now rewrite Hx, (IH _ H2).
Qed.

Lemma run_lits_ci w : forall mid post k i c,
  Str.lower (string_of_list_ascii mid) = Str.lower w ->
  Re.run (Re.Lits Re.LitI w) k i (mid ++ post) c = k (i + length mid) post c.
Proof.
  unfold Str.lower.
  induction w as [|a w IH]; intros mid post k i c H.
  - destruct mid; [|discriminate]. simpl. now rewrite Nat.add_0_r.
  - destruct mid as [|x mid]; [discriminate|]. simpl in H.
    injection H as Hx Hmid. simpl. rewrite Hx, Ascii.eqb_refl.
    rewrite (IH mid post k (S i) c Hmid). f_equal. simpl. lia.
Qed.

Lemma search_from_some r : forall s i m,
  plain r = true ->
  Re.search_from r i s = Some m ->
  exists pre mid post, s = pre ++ mid ++ post /\ denotes r mid.
Proof.
  induction s as [|x s IH]; intros i m Hp H; simpl in H.
  - destruct (Re.run r _ i [] ∅) as [m'|] eqn:E; [|discriminate].
    apply run_sound in E as (p & s' & Hs & Hd & _); [|assumption].
    exists [], p, s'. auto.
  - destruct (Re.run r _ i (x :: s) ∅) as [m'|] eqn:E.
    + apply run_sound in E as (p & s' & Hs & Hd & _); [|assumption].
      exists [], p, s'. auto.
    + apply IH in H as (pre & mid & post & -> & Hd); [|assumption].
      exists (x :: pre), mid, post. auto.
Qed.

(** [mentions word s] says that [s] holds [word] in some mix of upper and
    lower case. *)
Lemma mentions_iff word s :
  mentions word s = true <->
  exists pre mid post, s = pre +:+ mid +:+ post /\ Str.lower mid = Str.lower word.
Proof.
  unfold mentions, Re.search. split.
  - destruct (Re.search_from _ _ _) as [m|] eqn:E; [|discriminate]. intros _.
    apply search_from_some in E as (pre & mid & post & Hs & Hd).
    + exists (string_of_list_ascii pre), (string_of_list_ascii mid),
        (string_of_list_ascii post). split.
      * now rewrite <- (string_of_list_ascii_of_string s), Hs, !string_of_app.
      * now apply denotes_lits_ci.
    + clear. induction word as [|a w IH]; simpl; auto.
  - intros (pre & mid & post & -> & Hl).
    assert (H : forall i, Re.search_from (Re.Lits Re.LitI word) i
                            (list_ascii_of_string (pre +:+ mid +:+ post)) <> None).
    { induction pre as [|x pre IH]; intros i.
      - change ("" +:+ mid +:+ post) with (mid +:+ post).
        assert (Hs : list_ascii_of_string (mid +:+ post)
                     = list_ascii_of_string mid ++ list_ascii_of_string post).
        { clear. induction mid as [|c mid IH]; [reflexivity|].
          rewrite append_cons. simpl. now rewrite IH. }
        rewrite Hs.
        assert (Hrun : Re.run (Re.Lits Re.LitI word)
                         (fun _ _ c => Some c) i
                         (list_ascii_of_string mid ++ list_ascii_of_string post) ∅
                       = Some ∅).
        { apply run_lits_ci. now rewrite string_of_list_ascii_of_string. }
        destruct (list_ascii_of_string mid ++ list_ascii_of_string post);
          simpl; rewrite Hrun; discriminate.
      - rewrite append_cons. simpl.
        destruct (Re.run _ _ i _ ∅); [discriminate | apply IH]. }
    specialize (H 0). now destruct (Re.search_from _ _ _).
Qed.

(** The ids that reach the fetch phase are those of the listed items whose
    title does not mention signing, in the order of the list; a title that
    holds the word in any letter case keeps its item out. *)
Theorem signing_keys_excluded (items : list jobject) (w w' : world)
    (key_ids : list string) :
  select_keys items [] w = (w', inr key_ids) ->
  Forall2 (fun key id => key !! "id" = Some id)
    (List.filter (fun key => negb (is_signing key)) items) key_ids
  /\ forall key title pre mid post,
       key !! "title" = Some title ->
       title = pre +:+ mid +:+ post -> Str.lower mid = "signing" ->
       is_signing key = true.
Proof.
  intros H. split.
  - assert (G : forall items acc w w' ids,
               select_keys items acc w = (w', inr ids) ->
               exists more,
                 ids = acc ++ more
                 /\ Forall2 (fun key id => key !! "id" = Some id)
                      (List.filter (fun key => negb (is_signing key)) items) more).
    { clear. induction items as [|key rest IH]; intros acc w w' ids H.
      - injection H as _ <-. exists []. rewrite app_nil_r. auto.
      - cbn [select_keys] in H. unfold bind, lift, member, emit in H.
        cbn [List.filter]. unfold is_signing at 1.
        destruct (key !! "title") as [title|]; [|discriminate].
        destruct (mentions "signing" title); cbn [negb].
        + now apply IH in H.
        + destruct (key !! "id") as [id|] eqn:Hid; [|discriminate].
          apply IH in H as (more & -> & Hall).
          exists (id :: more). rewrite <- app_assoc. auto. }
    apply G in H as (more & -> & Hall). exact Hall.
  - intros key title pre mid post Ht -> Hl. unfold is_signing. rewrite Ht.
    apply mentions_iff. exists pre, mid, post. auto.
Qed.

Lemma signing_keys_excluded_witness :
  select_keys
    [ {[ "id" := "a1"; "title" := "My Signing Key" ]};
      {[ "id" := "b2"; "title" := "Example Host" ]} ] [] fresh
  = ({| trace := [Stdout "Omitting My Signing Key - this key appears to be for signing!"];
        stdin := [] |}, inr ["b2"])
  /\ Forall2 (fun key id => key !! "id" = Some id)
       (List.filter (fun key => negb (is_signing key))
          [ {[ "id" := "a1"; "title" := "My Signing Key" ]};
            {[ "id" := "b2"; "title" := "Example Host" ]} ]) ["b2"].
Proof.
  assert (H : select_keys
                [ {[ "id" := "a1"; "title" := "My Signing Key" ]};
                  {[ "id" := "b2"; "title" := "Example Host" ]} ] [] fresh
              = ({| trace := [Stdout "Omitting My Signing Key - this key appears to be for signing!"];
                    stdin := [] |}, inr ["b2"])) by (vm_compute; reflexivity).
  split; [exact H | exact (proj1 (signing_keys_excluded _ _ _ _ H))].
Defined.

(** ** The prompt, once more *)

(** When every line left on the keyboard is something else than an answer,
    the loop asks once per line and once more, and [input] raises
    [EOFError] at the end of the input; nothing but prompts happens. *)
Theorem confirm_runs_out_of_input (w : world) :
  Forall (fun line => classify line = Again) (stdin w) ->
  confirm w
  = ({| trace := trace w ++ repeat (Prompt question) (S (length (stdin w)));
        stdin := [] |}, inl EOFError).
Proof.
  intros H. unfold confirm.
  rewrite <- (app_nil_r (stdin w)) at 1.
  rewrite confirm_loop_again by assumption. simpl.
  rewrite <- app_assoc. do 3 f_equal.
  symmetry. apply (repeat_cons (length (stdin w)) (Prompt question)).
Qed.

Lemma confirm_runs_out_of_input_witness :
  confirm {| trace := []; stdin := ["maybe"; "yes please"] |}
  = ({| trace := [Prompt question; Prompt question; Prompt question];
        stdin := [] |}, inl EOFError).
Proof.
  apply (confirm_runs_out_of_input {| trace := []; stdin := ["maybe"; "yes please"] |}).
  repeat constructor.
Defined.

Lemma lstrip_parts s :
  exists pre, blank pre = true /\ s = pre +:+ Str.lstrip s.
Proof.
  induction s as [|c s (pre & Hb & Hs)]; simpl.
  - exists "". auto.
  - destruct (Str.is_space c) eqn:Hc.
    + exists (String c pre). simpl. rewrite Hc, Hb, append_cons.
      split; [reflexivity | now f_equal].
    + exists "". auto.
Qed.

Lemma rstrip_parts s :
  exists post, blank post = true /\ s = Str.rstrip s +:+ post.
Proof.
  induction s as [|c s (post & Hb & Hs)]; simpl.
  - exists "". auto.
  - destruct (Str.rstrip s) as [|x r] eqn:Hr.
    + change ("" +:+ post) with post in Hs. subst s.
      destruct (Str.is_space c) eqn:Hc.
      * exists (String c post). simpl. now rewrite Hc, Hb.
      * exists post. auto.
    + exists post. split; [assumption|]. rewrite append_cons. congruence.
Qed.

Lemma strip_parts s :
  exists pre post,
    blank pre = true /\ blank post = true /\ s = pre +:+ Str.strip s +:+ post.
Proof.
  destruct (lstrip_parts s) as (pre & Hpre & Hs).
  destruct (rstrip_parts (Str.lstrip s)) as (post & Hpost & Hl).
  exists pre, post. unfold Str.strip. rewrite <- Hl. auto.
Qed.

Lemma map_chars_append f s a b :
  Str.map_chars f s = a +:+ b ->
  exists a0 b0, s = a0 +:+ b0 /\ Str.map_chars f a0 = a /\ Str.map_chars f b0 = b.
Proof.
  revert s. induction a as [|x a IH]; intros s H.
  - exists "", s. auto.
  - destruct s as [|c s]; [discriminate|]. rewrite append_cons in H. simpl in H.
    injection H as Hx H. destruct (IH _ H) as (a0 & b0 & -> & Ha & Hb).
    exists (String c a0), b0. simpl. rewrite Ha, Hx. auto.
Qed.

Lemma lower_char_space_inv c :
  Str.is_space (Str.lower_char c) = true -> Str.is_space c = true.
Proof. destruct c as [[] [] [] [] [] [] [] []]; vm_compute; congruence. Qed.

Lemma lower_blank_inv s : blank (Str.lower s) = true -> blank s = true.
Proof.
  unfold Str.lower. induction s as [|c s IH]; simpl; [reflexivity|].
  intros [Hc Hs]%andb_true_iff. now rewrite (lower_char_space_inv c Hc), IH.
Qed.

Lemma lower_char_n c : Str.lower_char c = "n"%char -> c = "n"%char \/ c = "N"%char.
Proof. destruct c as [[] [] [] [] [] [] [] []]; vm_compute; intros H; auto; discriminate. Qed.

Lemma lower_char_y c : Str.lower_char c = "y"%char -> c = "y"%char \/ c = "Y"%char.
Proof. destruct c as [[] [] [] [] [] [] [] []]; vm_compute; intros H; auto; discriminate. Qed.

Lemma lower_wrapped_inv line x :
  Str.strip (Str.lower line) = String x "" ->
  exists pre c post,
    blank pre = true /\ blank post = true
    /\ Str.lower_char c = x /\ line = pre +:+ String c post.
Proof.
  intros H. destruct (strip_parts (Str.lower line)) as (pre' & post' & Hpre & Hpost & Hl).
  rewrite H in Hl. unfold Str.lower in Hl.
  apply map_chars_append in Hl as (pre & rest & -> & Hp & Hr).
  change (String x "" +:+ post') with (String x post') in Hr.
  destruct rest as [|c post]; [discriminate|]. simpl in Hr. injection Hr as Hc Hq.
  exists pre, c, post. repeat split; auto.
  - apply lower_blank_inv. unfold Str.lower. now rewrite Hp.
  - apply lower_blank_inv. unfold Str.lower. now rewrite Hq.
Qed.

(** The lines the prompt takes for an answer, exactly: for no, [n] or [N]
    with nothing but whitespace around it; for yes, a line of nothing but
    whitespace, or [y] or [Y] with nothing but whitespace around it.  Every
    other line is asked again. *)
Theorem answers_recognized (line : string) :
  (classify line = No <->
   exists pre post,
     blank pre = true /\ blank post = true
     /\ (line = pre +:+ "n" +:+ post \/ line = pre +:+ "N" +:+ post))
  /\ (classify line = Yes <->
      blank line = true
      \/ exists pre post,
           blank pre = true /\ blank post = true
           /\ (line = pre +:+ "y" +:+ post \/ line = pre +:+ "Y" +:+ post)).
Proof.
  split; split.
  - unfold classify.
    destruct (String.eqb_spec (Str.strip (Str.lower line)) "y") as [|_]; [discriminate|].
    destruct (String.eqb_spec (Str.strip (Str.lower line)) "") as [|_]; [discriminate|].
    destruct (String.eqb_spec (Str.strip (Str.lower line)) "n") as [E|]; [|discriminate].
    intros _. apply lower_wrapped_inv in E as (pre & c & post & Hpre & Hpost & Hc & ->).
    exists pre, post. destruct (lower_char_n c Hc) as [-> | ->]; auto.
  - intros (pre & post & Hpre & Hpost & [-> | ->]);
      now apply classify_wrapped.
  - unfold classify.
    destruct (String.eqb_spec (Str.strip (Str.lower line)) "y") as [E|_].
    + intros _. right.
      apply lower_wrapped_inv in E as (pre & c & post & Hpre & Hpost & Hc & ->).
      exists pre, post. destruct (lower_char_y c Hc) as [-> | ->]; auto.
    + destruct (String.eqb_spec (Str.strip (Str.lower line)) "") as [E|_].
      * intros _. left. apply lower_blank_inv.
        destruct (strip_parts (Str.lower line)) as (pre & post & Hpre & Hpost & ->).
        rewrite E. change ("" +:+ post) with post.
        now rewrite blank_append, Hpre, Hpost.
      * simpl. destruct (String.eqb _ "n"); discriminate.
  - intros [Hb | (pre & post & Hpre & Hpost & [-> | ->])].
    + rewrite <- (append_empty_r line). now apply classify_wrapped.
    + now apply classify_wrapped.
    + now apply classify_wrapped.
Qed.

(** ** When an entry is built *)

Lemma setattr_guarded self name v :
  SSHConfigEntry.setattr self name v
  = if guarded name then SSHConfigEntry.setattr self name v
    else inr (<[name := v]> self).
Proof.
  unfold guarded, SSHConfigEntry.setattr.
  destruct (String.eqb name "__class__"); [reflexivity|].
  destruct (String.eqb name "__dict__"); [reflexivity|].
  destruct (String.eqb name "__weakref__"); reflexivity.
Qed.

Lemma setattr_guarded_inl self name v :
  guarded name = true -> exists e, SSHConfigEntry.setattr self name v = inl e.
Proof.
  unfold guarded, SSHConfigEntry.setattr.
  destruct (String.eqb name "__class__"); [eauto|].
  destruct (String.eqb name "__dict__"); [eauto|].
  destruct (String.eqb name "__weakref__"); [eauto|discriminate].
Qed.

Lemma set_param_settable self line :
  (exists self', SSHConfigEntry.set_param self line = inr self')
  <-> settable line = true.
Proof.
  unfold SSHConfigEntry.set_param, settable.
  destruct (Str.split1 " " line) as [|k [|v [|? ?]]];
    try (split; [intros [? [=]] | discriminate]).
  destruct (guarded k) eqn:G; simpl.
  - split; [|discriminate]. intros [self' H].
    destruct (setattr_guarded_inl self k (VStr v) G) as [e He]. congruence.
  - rewrite setattr_guarded, G. split; eauto.
Qed.

Lemma set_params_settable lines : forall self,
  (exists self', SSHConfigEntry.set_params self lines = inr self')
  <-> Forall (fun line => settable line = true) lines.
Proof.
  induction lines as [|line rest IH]; intros self; simpl.
  - split; eauto.
  - rewrite Forall_cons, <- set_param_settable. split.
    + intros [self' H].
      destruct (SSHConfigEntry.set_param self line) as [e|mid] eqn:E; [discriminate|].
      split; [eauto|]. apply (IH mid). eauto.
    + intros [[mid Hm] Hrest]. rewrite Hm. simpl. now apply IH.
Qed.

Lemma startswith_inv p : forall s,
  Str.startswith p s = true -> exists v, s = p +:+ v.
Proof.
  induction p as [|a p IH]; intros s H.
  - exists s. reflexivity.
  - destruct s as [|b s]; [discriminate|]. cbn [Str.startswith] in H.
    apply andb_true_iff in H as [->%Ascii.eqb_eq H].
    destruct (IH s H) as [v ->]. exists v. now rewrite append_cons.
Qed.

Lemma split1_first sep a b :
  Str.mem sep a = false -> Str.split1 sep (a +:+ String sep b) = [a; b].
Proof.
  induction a as [|c a IH]; intros H.
  - change ("" +:+ String sep b) with (String sep b).
    cbn [Str.split1]. now rewrite Ascii.eqb_refl.
  - cbn [Str.mem] in H. apply orb_false_iff in H as [Hc H].
    rewrite append_cons. cbn [Str.split1]. now rewrite Hc, (IH H).
Qed.

Lemma startswith_split1 name line :
  Str.mem " " name = false ->
  Str.startswith (name +:+ " ") line = true <->
  exists v, Str.split1 " " line = [name; v].
Proof.
  intros Hn. split.
  - intros [v ->]%startswith_inv. exists v.
    rewrite append_assoc. now apply split1_first.
  - intros [v [-> _]%split1_pair].
    change (name +:+ String " " v) with (name +:+ (" " +:+ v)).
    rewrite <- append_assoc. apply startswith_append.
Qed.

Lemma last_value_exists name lines :
  last_value name lines <> None <->
  Exists (fun line => exists v, Str.split1 " " line = [name; v]) lines.
Proof.
  split.
  - intros H. destruct (last_value name lines) as [v|] eqn:E; [|congruence].
    apply last_value_some in E as (pre & line & post & -> & Hs & _).
    apply Exists_app. right. apply Exists_cons. left. eauto.
  - intros (line & Hin & v & Hs)%Exists_exists.
    apply list_elem_of_In in Hin.
    destruct (last_value_in name lines line v Hin Hs) as [v' ->]. discriminate.
Qed.

Lemma extract_keyname_inr ref :
  (exists kn, SSHConfigEntry.extract_keyname ref = inr kn)
  <-> Re.rmatch SSHConfigEntry.reference_pattern ref <> None.
Proof.
  unfold SSHConfigEntry.extract_keyname, SSHConfigEntry.group.
  destruct (Re.rmatch SSHConfigEntry.reference_pattern ref) as [c|].
  - change (Nat.leb 1 (Re.ngroups SSHConfigEntry.reference_pattern)) with true.
    cbv iota. split; [discriminate | eauto].
  - split; [intros [kn [=]] | congruence].
Qed.

(** An entry is built exactly when the answer of the CLI has its two
    fields, the first with a value and a reference the pattern matches,
    the second with a value whose every line has a space after a name
    [setattr] takes, one of the lines starting with [url ]. *)
Theorem construction_succeeds_iff (json : list jobject) :
  (exists self, SSHConfigEntry.__init__ json = inr self) <->
  exists j0 j1 key ref blob,
    json !! 0 = Some j0 /\ j0 !! "value" = Some key
    /\ j0 !! "reference" = Some ref
    /\ Re.rmatch SSHConfigEntry.reference_pattern ref <> None
    /\ json !! 1 = Some j1 /\ j1 !! "value" = Some blob
    /\ Forall (fun line => settable line = true) (Str.split Str.nl_char blob)
    /\ Exists (fun line => Str.startswith "url " line = true)
         (Str.split Str.nl_char blob).
Proof.
  assert (Hurl : forall lines,
            Exists (fun line => Str.startswith "url " line = true) lines
            <-> last_value "url" lines <> None).
  { intros lines. rewrite last_value_exists, !Exists_exists.
    split; intros (line & Hin & H); exists line; (split; [exact Hin|]);
      now apply (startswith_split1 "url" line). }
  split.
  - intros [self (j0 & key & ref & kn & blob & mid & H0 & Hv & Hr & Hk & Hb & Hp & Hf)%init_inr].
    unfold SSHConfigEntry.blob_of, item, member in Hb.
    destruct (json !! 1) as [j1|] eqn:H1; [|discriminate]. simpl in Hb.
    destruct (j1 !! "value") as [blob'|] eqn:Hv1; [|discriminate].
    injection Hb as ->.
    exists j0, j1, key, ref, blob. repeat split; auto.
    + apply extract_keyname_inr. eauto.
    + eapply set_params_settable. eauto.
    + apply Hurl. intros Hn.
      apply finish_inr in Hf as (url & _ & Hu & _).
      rewrite (set_params_lookup _ _ _ Hp "url"), Hn, initial_lookup in Hu.
      discriminate.
  - intros (j0 & j1 & key & ref & blob & H0 & Hv & Hr & Hm & H1 & Hv1 & Hs & Hu).
    apply extract_keyname_inr in Hm as [kn Hk].
    apply (set_params_settable _ (SSHConfigEntry.initial key kn)) in Hs as [mid Hp].
    apply Hurl in Hu.
    destruct (last_value "url" (Str.split Str.nl_char blob)) as [url|] eqn:Eu; [|congruence].
    unfold SSHConfigEntry.__init__, SSHConfigEntry.blob_of, item, member.
    rewrite H0, H1. cbn [rbind]. rewrite Hv, Hr, Hv1. cbn [rbind].
    rewrite Hk. cbn [rbind]. rewrite Hp. cbn [rbind].
    assert (Hmu : mid !! "url" = Some (VStr url))
      by now rewrite (set_params_lookup _ _ _ Hp "url"), Eu.
    assert (Hmk : exists v, mid !! "keyname" = Some v).
    { rewrite (set_params_lookup _ _ _ Hp "keyname"), initial_lookup.
      destruct (last_value "keyname" _); cbn; eauto. }
    destruct Hmk as [v Hmk].
    unfold SSHConfigEntry.finish, SSHConfigEntry.getattr.
    rewrite Hmu. cbn [rbind]. rewrite Hmk. cbn [rbind].
    destruct v as [|label].
    + rewrite lookup_insert_eq. cbn. eauto.
    + rewrite Hmk. cbn. eauto.
Qed.

(** ** What the parameter lines leave on the entry *)

(** On a constructed entry, [options], [user] and [aliases] hold the text
    of the last line that names them, or [None] when no line does; a line
    named [key] replaces the public key of the first field; any other
    name, the six of the constructor apart, is an attribute exactly when a
    line names it, again with the text of the last such line. *)
Theorem fields_are_last_values (json : list jobject) (j0 : jobject)
    (key blob : string) (self : SSHConfigEntry.attrs) :
  SSHConfigEntry.__init__ json = inr self ->
  json !! 0 = Some j0 -> j0 !! "value" = Some key ->
  SSHConfigEntry.blob_of json = inr blob ->
  let lines := Str.split Str.nl_char blob in
  (forall name,
     In name ["options"; "user"; "aliases"] ->
     self !! name
     = Some (match last_value name lines with Some v => VStr v | None => VNone end))
  /\ self !! "key"
     = Some (VStr (match last_value "key" lines with Some v => v | None => key end))
  /\ (forall name,
        ~ In name ["options"; "user"; "aliases"; "key"; "url"; "keyname"] ->
        self !! name = VStr <$> last_value name lines).
Proof.
  intros (j0' & key' & ref & kn & blob' & mid & H0' & Hv' & _ & _ & Hb' & Hp & Hf)%init_inr
    H0 Hv Hb lines.
  rewrite H0 in H0'. injection H0' as <-.
  rewrite Hv in Hv'. injection Hv' as <-.
  rewrite Hb in Hb'. injection Hb' as <-.
  apply finish_inr in Hf as (url & kn' & _ & _ & _ & Hsame).
  assert (Hself : forall name, name <> "keyname" ->
            self !! name = match last_value name lines with
                           | Some v => Some (VStr v)
                           | None => SSHConfigEntry.initial key kn !! name
                           end).
  { intros name Hn. rewrite (Hsame name Hn).
    apply (set_params_lookup _ _ _ Hp name). }
  split; [|split].
  - intros name [<-|[<-|[<-|[]]]]; (rewrite Hself by discriminate);
      destruct (last_value _ lines); reflexivity.
  - rewrite Hself by discriminate. destruct (last_value _ lines); reflexivity.
  - intros name Hn. rewrite Hself by (intros ->; apply Hn; simpl; tauto).
    destruct (last_value name lines); [reflexivity|].
    rewrite initial_lookup.
    repeat match goal with
           | |- context [String.eqb name ?s] =>
               destruct (String.eqb_spec name s) as [->|_];
               [exfalso; apply Hn; simpl; tauto|]
           end.
    reflexivity.
Qed.

Lemma fields_are_last_values_witness :
  SSHConfigEntry.__init__ (fetched example_key example_reference renaming_blob)
  = inr (<["keyname" := VStr "other"]> (<["user" := VNone]> (<["aliases" := VNone]> example_entry)))
  /\ (<["keyname" := VStr "other"]> (<["user" := VNone]> (<["aliases" := VNone]> example_entry)))
       !! "key" = Some (VStr example_key).
Proof.
  assert (H : SSHConfigEntry.__init__ (fetched example_key example_reference renaming_blob)
              = inr (<["keyname" := VStr "other"]>
                       (<["user" := VNone]> (<["aliases" := VNone]> example_entry))))
    by (vm_compute; reflexivity).
  split; [exact H|].
  exact (proj1 (proj2 (fields_are_last_values
                         (fetched example_key example_reference renaming_blob)
                         {[ "value" := example_key; "reference" := example_reference ]}
                         example_key renaming_blob _ H eq_refl eq_refl eq_refl))).
Defined.

(** ** Fetching comes before writing *)

Lemma emits_only_ret {A : Type} ok (x : A) : emits_only ok (ret x).
Proof. intros w. exists []. now rewrite app_nil_r. Qed.

Lemma emits_only_lift {A : Type} ok (r : result A) : emits_only ok (lift r).
Proof. intros w. exists []. now rewrite app_nil_r. Qed.

Lemma emits_only_emit ok (e : event) : ok e = true -> emits_only ok (emit e).
Proof. intros H w. exists [e]. auto. Qed.

Lemma emits_only_bind {A B : Type} ok (m : M A) (f : A -> M B) :
  emits_only ok m ->
  (forall x w, snd (m w) = inr x -> emits_only ok (f x)) ->
  emits_only ok (bind m f).
Proof.
  intros Hm Hf w. unfold bind.
  destruct (Hm w) as (ev1 & Htr1 & Hall1).
  destruct (m w) as [w1 [e|x]] eqn:E; cbn [fst] in Htr1.
  - exists ev1. auto.
  - destruct (Hf x w (f_equal snd E) w1) as (ev2 & Htr2 & Hall2).
    exists (ev1 ++ ev2). rewrite Htr2, Htr1, app_assoc.
    split; [reflexivity | now apply Forall_app].
Qed.

Lemma fetch_entries_acc env exe ids : forall acc w,
  fst (fetch_entries env exe ids acc w) = w
  /\ match snd (fetch_entries env exe ids acc w) with
     | inr entries =>
         exists more,
           entries = acc ++ more
           /\ Forall2 (fun id entry => fetched_entry env exe id = inr entry) ids more
     | inl e =>
         exists good id rest entries,
           ids = good ++ id :: rest
           /\ Forall2 (fun id entry => fetched_entry env exe id = inr entry)
                good entries
           /\ fetched_entry env exe id = inl e
     end.
Proof.
  induction ids as [|key ids IH]; intros acc w.
  - split; [reflexivity|]. exists []. cbn. now rewrite app_nil_r.
  - cbn [fetch_entries]. unfold bind, call_shell, lift.
    change (shell env _) with (shell env (item_get exe key)).
    assert (Hone : fetched_entry env exe key
                   = do res <- shell env (item_get exe key);
                     do json <- loads env res;
                     SSHConfigEntry.__init__ json) by reflexivity.
    destruct (shell env (item_get exe key)) as [e|res]; cbn [rbind] in Hone.
    { split; [reflexivity|]. exists [], key, ids, []. cbn. auto. }
    destruct (loads env res) as [e|json]; cbn [rbind] in Hone.
    { split; [reflexivity|]. exists [], key, ids, []. cbn. auto. }
    destruct (SSHConfigEntry.__init__ json) as [e|entry].
    { split; [reflexivity|]. exists [], key, ids, []. cbn. auto. }
    destruct (IH (acc ++ [entry]) w) as [Hw Hr]. split; [exact Hw|].
    destruct (snd (fetch_entries env exe ids (acc ++ [entry]) w)) as [e|entries].
    + destruct Hr as (good & id & rest & found & -> & Hall & He).
      exists (key :: good), id, rest, (entry :: found). cbn. auto.
    + destruct Hr as (more & -> & Hall).
      exists (entry :: more). rewrite <- app_assoc. auto.
Qed.

(** The loop of lines 214-218 returns one entry per id, in the order of
    the ids; when it raises, the exception is the one of the first id
    whose answer cannot be fetched, parsed or made an entry, every id
    before that one having given an entry. *)
Theorem fetch_in_order (env : Env) (exe : string) (ids : list string) (w : world) :
  match snd (fetch_entries env exe ids [] w) with
  | inr entries =>
      Forall2 (fun id entry => fetched_entry env exe id = inr entry) ids entries
  | inl e =>
      exists good id rest entries,
        ids = good ++ id :: rest
        /\ Forall2 (fun id entry => fetched_entry env exe id = inr entry)
             good entries
        /\ fetched_entry env exe id = inl e
  end.
Proof.
  destruct (fetch_entries_acc env exe ids [] w) as [_ Hr].
  destruct (snd (fetch_entries env exe ids [] w)) as [e|entries]; [exact Hr|].
  now destruct Hr as (more & -> & Hall).
Qed.

Lemma harmless_events events :
  Forall (fun e => harmless e = true) events -> List.filter mutates events = [].
Proof.
  induction 1 as [|e events He _ IH]; [reflexivity|]. cbn [List.filter].
  unfold harmless in He. apply negb_true_iff in He. now rewrite He.
Qed.

Lemma emits_only_harmless {A : Type} (m : M A) w :
  emits_only harmless m ->
  List.filter mutates (trace (fst (m w))) = List.filter mutates (trace w).
Proof.
  intros H. destruct (H w) as (events & -> & Hall).
  rewrite List.filter_app, (harmless_events events Hall). apply app_nil_r.
Qed.

Lemma select_keys_harmless items : forall acc,
  emits_only harmless (select_keys items acc).
Proof.
  induction items as [|key items IH]; intros acc; cbn [select_keys].
  - apply emits_only_ret.
  - apply emits_only_bind; [apply emits_only_lift|]. intros title _ _.
    destruct (mentions "signing" title).
    + apply emits_only_bind; [apply emits_only_lift|]. intros title' _ _.
      apply emits_only_bind; [now apply emits_only_emit|]. intros _ _ _.
      apply IH.
    + apply emits_only_bind; [apply emits_only_lift|]. intros id _ _.
      apply IH.
Qed.

Lemma confirm_loop_harmless pending : forall shown,
  List.filter mutates (trace (fst (confirm_loop shown pending)))
  = List.filter mutates shown.
Proof.
  induction pending as [|line rest IH]; intros shown; cbn [confirm_loop].
  - now apply filter_mutates_snoc.
  - destruct (classify line); cbn [fst trace];
      try rewrite IH; now apply filter_mutates_snoc.
Qed.


(** ** Where the key file lies *)

Lemma label_wordy ref label :
  SSHConfigEntry.extract_keyname ref = inr (VStr label) -> wordy label = true.
Proof.
  unfold SSHConfigEntry.extract_keyname, SSHConfigEntry.group, Re.rmatch.
  destruct (Re.run _ _ _ _ _) as [m|] eqn:E; [|discriminate].
  change (Nat.leb 1 (Re.ngroups SSHConfigEntry.reference_pattern)) with true.
  cbv iota. intros Hm.
  unfold SSHConfigEntry.reference_pattern in E.
  rewrite run_seq in E. change (Re.run Re.Bol ?k 0 ?s ?c) with (k 0 s c) in E.
  rewrite run_seq in E.
  apply run_sound in E as (p0 & s0 & _ & _ & E); [|reflexivity].
  rewrite run_seq in E.
  apply run_sound in E as (p1 & s1 & -> & _ & E); [|reflexivity].
  rewrite run_seq in E.
  apply run_sound in E as (q1 & s2 & -> & _ & E); [|reflexivity].
  rewrite run_seq, run_group in E.
  apply run_sound in E as (p3 & s3 & -> & Hd3 & E); [|reflexivity].
  rewrite run_seq in E.
  apply run_sound in E as (q2 & s4 & -> & _ & E); [|reflexivity].
  rewrite run_seq in E.
  apply run_sound in E as (p4 & s5 & -> & _ & E); [|reflexivity].
  assert (Htake : forall i n, i + n - i = n) by (intros; lia).
  rewrite Htake, take_app_length in E.
  assert (Hend : m = <[1 := string_of_list_ascii p3]> ∅).
  { simpl in E. destruct s5 as [|x [|y s5]]; try discriminate.
    - now injection E as <-.
    - destruct (Ascii.eqb x Str.nl_char); [|discriminate]. now injection E as <-. }
  subst m. rewrite lookup_insert_eq in Hm. injection Hm as <-.
  eapply wordy_of_words, Hd3.
Qed.

Lemma wordy_no_slash s : wordy s = true -> Str.mem "/" s = false.
Proof.
  induction s as [|c s IH]; [reflexivity|]. cbn [wordy Str.mem].
  intros [Hc Hs]%andb_true_iff. rewrite (IH Hs), orb_false_r.
  destruct (Ascii.eqb_spec c "/") as [->|]; [discriminate Hc | reflexivity].
Qed.

Lemma replace_keeps_out c a b s :
  b <> c -> Str.mem c s = false -> Str.mem c (Str.replace a b s) = false.
Proof.
  intros Hb. unfold Str.replace.
  induction s as [|x s IH]; [reflexivity|]. cbn [Str.mem Str.map_chars].
  intros [Hx Hs]%orb_false_iff. rewrite (IH Hs), orb_false_r.
  destruct (Ascii.eqb x a); [now apply Ascii.eqb_neq | exact Hx].
Qed.

Lemma startswith_char_mem c s t :
  Str.mem c s = false -> Str.startswith (String c "") t = false ->
  Str.startswith (String c "") (s +:+ t) = false.
Proof.
  destruct s as [|x s]; [auto|]. intros H _. rewrite append_cons.
  cbn [Str.mem] in H. apply orb_false_iff in H as [Hx _].
  cbn [Str.startswith]. rewrite Ascii.eqb_sym, Hx. reflexivity.
Qed.

Lemma startswith_replace c a b s t :
  a <> c ->
  Str.startswith (String c "") s = true ->
  Str.startswith (String c "") (Str.replace a b s +:+ t) = true.
Proof.
  intros Ha. destruct s as [|x s]; [discriminate|]. unfold Str.replace.
  cbn [Str.startswith Str.map_chars]. rewrite andb_true_r.
  intros <-%Ascii.eqb_eq. rewrite append_cons. cbn [Str.startswith].
  destruct (Ascii.eqb_spec c a) as [E|_]; [now destruct Ha|].
  now rewrite Ascii.eqb_refl.
Qed.

(** The key file of a constructed entry.  When no parameter line names
    [keyname], the name comes from the reference, holds no slash, and the
    file lies in the directory itself: the path, a slash unless the path is
    empty or ends with one, the name and [.pub].  When a line does, the
    name is its text with the spaces replaced, and if that text starts
    with a slash the file is that absolute path with [.pub], wherever the
    directory is. *)
Theorem key_file_location (json : list jobject) (j0 : jobject)
    (ref blob label : string) (self : SSHConfigEntry.attrs) (path : string) :
  json !! 0 = Some j0 -> j0 !! "reference" = Some ref ->
  SSHConfigEntry.extract_keyname ref = inr (VStr label) ->
  SSHConfigEntry.blob_of json = inr blob ->
  SSHConfigEntry.__init__ json = inr self ->
  exists name,
    self !! "keyname" = Some (VStr name)
    /\ match last_value "keyname" (Str.split Str.nl_char blob) with
       | None =>
           Str.mem "/" name = false
           /\ Str.path_join path (name +:+ ".pub")
              = path
                +:+ (if negb (Str.truthy path) || Str.endswith_char "/" path
                     then "" else "/")
                +:+ name +:+ ".pub"
       | Some v =>
           name = Str.replace " " "_" v
           /\ (Str.startswith "/" v = true ->
               Str.path_join path (name +:+ ".pub") = name +:+ ".pub")
       end.
Proof.
  intros H0 Hr Hk Hb
    (j0' & key & ref' & kn & blob' & mid & H0' & _ & Hr' & Hk' & Hb' & Hp & Hf)%init_inr.
  rewrite H0 in H0'. injection H0' as <-.
  rewrite Hr in Hr'. injection Hr' as <-.
  rewrite Hk in Hk'. injection Hk' as <-.
  rewrite Hb in Hb'. injection Hb' as <-.
  apply finish_inr in Hf as (url & kn & _ & Hkn & Hself & _).
  rewrite (set_params_lookup _ _ _ Hp "keyname"), initial_lookup in Hkn.
  exists (Str.replace " " "_" kn). split; [exact Hself|].
  destruct (last_value "keyname" (Str.split Str.nl_char blob)) as [v|];
    cbn in Hkn; destruct Hkn as [[= <-]|[[=] _]].
  - split; [reflexivity|]. intros Hv. unfold Str.path_join.
    now rewrite (startswith_replace "/" " " "_" v ".pub").
  - assert (Hno : Str.mem "/" (Str.replace " " "_" label) = false).
    { apply replace_keeps_out; [discriminate|].
      apply wordy_no_slash. eapply label_wordy, Hk. }
    split; [exact Hno|]. unfold Str.path_join.
    rewrite (startswith_char_mem "/" _ ".pub" Hno eq_refl).
    destruct (negb (Str.truthy path) || Str.endswith_char "/" path); reflexivity.
Qed.

Lemma key_file_location_witness :
  exists name,
    example_entry !! "keyname" = Some (VStr name)
    /\ match last_value "keyname" (Str.split Str.nl_char example_blob) with
       | None =>
           Str.mem "/" name = false
           /\ Str.path_join "/home/user/.ssh" (name +:+ ".pub")
              = "/home/user/.ssh"
                +:+ (if negb (Str.truthy "/home/user/.ssh")
                        || Str.endswith_char "/" "/home/user/.ssh"
                     then "" else "/")
                +:+ name +:+ ".pub"
       | Some v =>
           name = Str.replace " " "_" v
           /\ (Str.startswith "/" v = true ->
               Str.path_join "/home/user/.ssh" (name +:+ ".pub") = name +:+ ".pub")
       end.
Proof.
  apply (key_file_location example_json
           {[ "value" := example_key; "reference" := example_reference ]}
           example_reference example_blob "Example Host" example_entry
           "/home/user/.ssh");
    vm_compute; reflexivity.
Defined.
